(** * Gluon DataLoader: a shallow embedding of
      [python/mxnet/gluon/data/dataloader.py]

    The development follows the module top to bottom: the collate functions
    ([default_batchify_fn], [default_mp_batchify_fn]), the connection wrapper,
    the worker loop, the constructor of [DataLoader] and its two iteration
    modes.  Python exceptions are values of [exn]; a computation that may
    raise returns a [result]. *)

From stdpp Require Import base option list gmap gmultiset strings.
From Stdlib Require Import ZArith Lia.

Local Open Scope string_scope.
Local Open Scope list_scope.
Local Open Scope nat_scope.

(** ** Exceptions and the error monad *)

Inductive exn :=
  | IndexError
  | TypeError
  | NameError (name : string)
  | ValueError (msg : string)
  | MXNetError.

Definition result (A : Type) : Type := exn + A.

Definition Ok {A} (a : A) : result A := inr a.
Definition Raise {A} (e : exn) : result A := inl e.

Global Instance result_ret : MRet result := λ A a, inr a.
Global Instance result_bind : MBind result := λ A B f m,
  match m with inl e => inl e | inr a => f a end.
Global Instance result_fmap : FMap result := λ A B f m,
  match m with inl e => inl e | inr a => inr (f a) end.

Global Instance exn_eq_dec : EqDecision exn.
Proof. solve_decision. Defined.

(** [mapM] on [result]: the elements are evaluated left to right and the
    first exception wins, as in a Python list comprehension. *)
Fixpoint mapR {A B} (f : A → result B) (l : list A) : result (list B) :=
  match l with
  | [] => Ok []
  | x :: l' => y ← f x; ys ← mapR f l'; Ok (y :: ys)
  end.

(** ** Tensors *)

Inductive dtype := float16 | float32 | float64 | uint8 | int8 | int32 | int64.

Global Instance dtype_eq_dec : EqDecision dtype.
Proof. solve_decision. Defined.

(** [context.Context(device_type, device_id)] *)
Inductive Context :=
  | cpu (device_id : nat)
  | gpu (device_id : nat)
  | cpu_pinned (device_id : nat)
  | cpu_shared (device_id : nat).

Global Instance Context_eq_dec : EqDecision Context.
Proof. solve_decision. Defined.

(** An [nd.NDArray]: shape, element type, the device that holds it, and the
    elements in row-major order (each element as the integer encoding of
    its stored value: collation copies elements and never computes on
    them). *)
Record NDArray := mkND {
  nd_shape : list nat;
  nd_dtype : dtype;
  nd_ctx : Context;
  nd_data : list Z
}.

(** A numpy array, which also stands for what [np.asarray] accepts as one
    element: a Python number is an array of shape []. *)
Record nparray := mkNP {
  np_shape : list nat;
  np_dtype : dtype;
  np_data : list Z
}.

Global Instance NDArray_eq_dec : EqDecision NDArray.
Proof. solve_decision. Defined.
Global Instance nparray_eq_dec : EqDecision nparray.
Proof. solve_decision. Defined.

(** ** Samples and batches *)

Local Unset Elimination Schemes.

(** What [dataset[i]] returns: an NDArray, a tuple of samples, or anything
    else (handed to numpy). *)
Inductive Sample :=
  | SNDArray (a : NDArray)
  | STuple (fields : list Sample)
  | SOther (v : nparray).

(** What a collate function returns: an NDArray, or the Python list built by
    the comprehension over the fields. *)
Inductive Batch :=
  | BNDArray (a : NDArray)
  | BList (items : list Batch).

Local Set Elimination Schemes.

(** Induction principles that reach inside the nested lists. *)
Section SampleInd.
Variable P : Sample → Prop.
Hypothesis Hnd : ∀ a, P (SNDArray a).
Hypothesis Htuple : ∀ fs, Forall P fs → P (STuple fs).
Hypothesis Hother : ∀ v, P (SOther v).

Fixpoint Sample_ind' (s : Sample) : P s :=
  match s with
  | SNDArray a => Hnd a
  | STuple fs =>
      Htuple fs
        ((fix go (l : list Sample) : Forall P l :=
            match l with
            | [] => Forall_nil_2 P
            | x :: l' => Forall_cons_2 P x l' (Sample_ind' x) (go l')
            end) fs)
  | SOther v => Hother v
  end.
End SampleInd.

Section BatchInd.
Variable P : Batch → Prop.
Hypothesis Hnd : ∀ a, P (BNDArray a).
Hypothesis Hlist : ∀ bs, Forall P bs → P (BList bs).

Fixpoint Batch_ind' (b : Batch) : P b :=
  match b with
  | BNDArray a => Hnd a
  | BList bs =>
      Hlist bs
        ((fix go (l : list Batch) : Forall P l :=
            match l with
            | [] => Forall_nil_2 P
            | x :: l' => Forall_cons_2 P x l' (Batch_ind' x) (go l')
            end) bs)
  end.
End BatchInd.

(** ** The tensor library, as far as collation uses it *)

Definition as_ndarray (s : Sample) : result NDArray :=
  match s with SNDArray a => Ok a | _ => Raise TypeError end.

Definition as_nparray (s : Sample) : result nparray :=
  match s with SOther v => Ok v | _ => Raise TypeError end.

Definition same_kind (a b : NDArray) : bool :=
  bool_decide (nd_shape b = nd_shape a ∧ nd_dtype b = nd_dtype a).

(** Modelled from the spec: [nd.empty] of the [nd] package, which is not
    among the sources.  It allocates an array of the given shape, element
    type and device; its contents are unspecified (here zeros). *)
Definition nd_empty (shape : list nat) (dt : dtype) (ctx : Context) : NDArray :=
  mkND shape dt ctx (replicate (foldr Nat.mul 1 shape) 0%Z).

(** Modelled from the spec: [nd.stack] of the [nd] package, which is not
    among the sources ("stack the list of per-sample tensors along a new
    leading dimension, producing one tensor of shape [len] + leaf_shape").
    Every argument must be an NDArray of the shape and element type of the
    first.  Without [out] the result lives where the first argument lives;
    with [out] the elements are written into [out], which must have the
    result's shape and element type. *)
Definition nd_stack (arrays : list Sample) (out : option NDArray) : result NDArray :=
  ts ← mapR as_ndarray arrays;
  match ts with
  | [] => Raise MXNetError
  | t :: _ =>
      if forallb (same_kind t) ts then
        let shape := length ts :: nd_shape t in
        let elems := concat (nd_data <$> ts) in
        match out with
        | None => Ok (mkND shape (nd_dtype t) (nd_ctx t) elems)
        | Some o =>
            if bool_decide (nd_shape o = shape ∧ nd_dtype o = nd_dtype t)
            then Ok (mkND (nd_shape o) (nd_dtype o) (nd_ctx o) elems)
            else Raise MXNetError
        end
      else Raise MXNetError
  end.

Definition same_np (a b : nparray) : bool :=
  bool_decide (np_shape b = np_shape a ∧ np_dtype b = np_dtype a).

(** Modelled from the spec: [np.asarray] on a list ("scalar/array-convertible
    leaf: convert to tensor").  The elements must be array-convertible values
    of one shape and element type; they become the rows of the result.  The
    empty list gives numpy's empty float64 array. *)
Definition np_asarray (data : list Sample) : result nparray :=
  vs ← mapR as_nparray data;
  match vs with
  | [] => Ok (mkNP [0] float64 [])
  | v :: _ =>
      if forallb (same_np v) vs
      then Ok (mkNP (length vs :: np_shape v) (np_dtype v) (concat (np_data <$> vs)))
      else Raise (ValueError "setting an array element with a sequence.")
  end.

(** Modelled from the spec: [nd.array(source, dtype, ctx)] of the [nd]
    package.  The callers pass the source's own element type, so the
    elements are copied as they are; the default device is cpu(0). *)
Definition nd_array (src : nparray) (dt : dtype) (ctx : option Context) : NDArray :=
  mkND (np_shape src) dt (default (cpu 0) ctx) (np_data src).

(** ** Collation *)

Section Batchify.

(** [zip] over the unpacked [data] asks every element for an iterator.  A
    tuple yields its fields; what any other sample yields is up to its class
    and is left open. *)
Variable iter_leaf : Sample → result (list Sample).

Definition sample_iter (s : Sample) : result (list Sample) :=
  match s with
  | STuple fields => Ok fields
  | _ => iter_leaf s
  end.

(** One round of [zip]: the next item of every iterator, or [None] as soon
    as one of them is exhausted. *)
Fixpoint zip_next (its : list (list Sample))
  : option (list Sample * list (list Sample)) :=
  match its with
  | [] => Some ([], [])
  | [] :: _ => None
  | (x :: t) :: its' =>
      match zip_next its' with
      | Some (hs, ts) => Some (x :: hs, t :: ts)
      | None => None
      end
  end.

Fixpoint zip_cols (first : list Sample) (others : list (list Sample))
  : list (list Sample) :=
  match first with
  | [] => []
  | f :: fs =>
      match zip_next others with
      | Some (hs, ts) => (f :: hs) :: zip_cols fs ts
      | None => []
      end
  end.

(** [zip] over the unpacked [data] *)
Definition zip_star (data : list Sample) : result (list (list Sample)) :=
  its ← mapR sample_iter data;
  match its with
  | [] => Ok []
  | first :: others => Ok (zip_cols first others)
  end.

(** The list comprehension over [zip]: one column per field of the first
    sample, built and collated one after the other, up to the first field
    that some other sample lacks. *)
Fixpoint collate_columns (collate : Sample → list Sample → result Batch)
    (fields : list Sample) (its : list (list Sample)) : result (list Batch) :=
  match fields with
  | [] => Ok []
  | f :: fields' =>
      match zip_next its with
      | Some (hs, ts) =>
          b ← collate f hs;
          bs ← collate_columns collate fields' ts;
          Ok (b :: bs)
      | None => Ok []
      end
  end.

(** [default_batchify_fn] inspects [data[0]] only, and each recursive call
    is on a column of the [zip], whose first element is a field of
    [data[0]]: the recursion is structural in the first sample, [x], with
    [rest] the samples after it. *)
Fixpoint batchify_from (x : Sample) (rest : list Sample) {struct x} : result Batch :=
  match x with
  | SNDArray _ =>
      a ← nd_stack (x :: rest) None; Ok (BNDArray a)
  | STuple fields =>
      its ← mapR sample_iter rest;
      bs ← collate_columns batchify_from fields its;
      Ok (BList bs)
  | SOther _ =>
      data ← np_asarray (x :: rest);
      Ok (BNDArray (nd_array data (np_dtype data) None))
  end.

Definition default_batchify_fn (data : list Sample) : result Batch :=
  match data with
  | [] => Raise IndexError
  | x :: rest => batchify_from x rest
  end.

Definition shared : Context := cpu_shared 0.

Fixpoint mp_batchify_from (x : Sample) (rest : list Sample) {struct x} : result Batch :=
  match x with
  | SNDArray a0 =>
      let out := nd_empty (length (x :: rest) :: nd_shape a0) (nd_dtype a0) shared in
      a ← nd_stack (x :: rest) (Some out); Ok (BNDArray a)
  | STuple fields =>
      its ← mapR sample_iter rest;
      bs ← collate_columns mp_batchify_from fields its;
      Ok (BList bs)
  | SOther _ =>
      data ← np_asarray (x :: rest);
      Ok (BNDArray (nd_array data (np_dtype data) (Some shared)))
  end.

Definition default_mp_batchify_fn (data : list Sample) : result Batch :=
  match data with
  | [] => Raise IndexError
  | x :: rest => mp_batchify_from x rest
  end.

End Batchify.

(** ** The connection wrapper *)

(** The names bound at module level once the module is loaded: its imports
    ([import multiprocessing.queues] binds [multiprocessing]), the functions
    and classes it defines, and the attributes every module has. *)
Definition module_globals : list string :=
  [ "__name__"; "__doc__"; "__package__"; "__loader__"; "__spec__";
    "__file__"; "__cached__"; "__builtins__"; "__all__";
    "np"; "multiprocessing"; "ForkingPickler"; "pickle";
    "_sampler"; "nd"; "context";
    "rebuild_ndarray"; "reduce_ndarray"; "ConnectionWrapper"; "SimpleQueue";
    "default_batchify_fn"; "default_mp_batchify_fn"; "worker_loop";
    "DataLoader" ].

(** Python's built-in functions and constants, and the exception classes
    this module names. *)
Definition builtins : list string :=
  [ "abs"; "all"; "any"; "ascii"; "bin"; "bool"; "bytearray"; "bytes";
    "callable"; "chr"; "classmethod"; "compile"; "complex"; "delattr";
    "dict"; "dir"; "divmod"; "enumerate"; "eval"; "exec"; "filter"; "float";
    "format"; "frozenset"; "getattr"; "globals"; "hasattr"; "hash"; "help";
    "hex"; "id"; "input"; "int"; "isinstance"; "issubclass"; "iter"; "len";
    "list"; "locals"; "map"; "max"; "memoryview"; "min"; "next"; "object";
    "oct"; "open"; "ord"; "pow"; "print"; "property"; "range"; "repr";
    "reversed"; "round"; "set"; "setattr"; "slice"; "sorted";
    "staticmethod"; "str"; "sum"; "super"; "tuple"; "type"; "vars"; "zip";
    "__import__"; "None"; "True"; "False"; "Ellipsis"; "NotImplemented";
    "Exception"; "ValueError"; "TypeError"; "IndexError"; "NameError" ].

(** A name that is not local to a function is looked up in the module's
    globals, then in the builtins; failing both is a [NameError]. *)
Definition load_global (name : string) : result unit :=
  if bool_decide (name ∈ module_globals ++ builtins) then Ok ()
  else Raise (NameError name).

(** The wrapped connection: the byte strings written to it so far and those
    waiting to be read. *)
Record Connection := mkConn {
  conn_sent : list (list Byte.byte);
  conn_inbox : list (list Byte.byte)
}.

Record ConnectionWrapper := mkWrapper { conn : Connection }.

(** [self.send_bytes] is not an attribute of the wrapper: [__getattr__]
    forwards it to [self.conn]. *)
Definition send_bytes (self : ConnectionWrapper) (buf : list Byte.byte)
  : ConnectionWrapper :=
  mkWrapper (mkConn (conn_sent (conn self) ++ [buf]) (conn_inbox (conn self))).

Section Send.

(** [ForkingPickler(buf, pickle.HIGHEST_PROTOCOL).dump(obj)]: the bytes the
    pickler writes for an object. *)
Context {Obj : Type}.
Variable dumps : Obj → list Byte.byte.

(** [ConnectionWrapper.send]: the outcome of the call and the wrapper
    after it. *)
Definition send (self : ConnectionWrapper) (obj : Obj)
  : result unit * ConnectionWrapper :=
  match load_global "io" with                 (* buf = io.BytesIO() *)
  | inl e => (Raise e, self)
  | inr _ =>
      match load_global "ForkingPickler", load_global "pickle" with
      | inr _, inr _ =>
          let buf := dumps obj in              (* ....dump(obj) *)
          (Ok (), send_bytes self buf)         (* self.send_bytes(buf.getvalue()) *)
      | inl e, _ | _, inl e => (Raise e, self)
      end
  end.

End Send.

(** ** Samplers *)

(** [last_batch] *)
Inductive LastBatch := keep | discard | rollover.

Global Instance LastBatch_eq_dec : EqDecision LastBatch.
Proof. solve_decision. Defined.

(** Modelled from the spec: the samplers of the [sampler] module, which is
    not among the sources ("concrete index-sampling strategies
    (sequential/random/custom)").  A custom sampler is given by the index
    sequence it yields. *)
Inductive Sampler :=
  | SequentialSampler (length : nat)
  | RandomSampler (length : nat)
  | CustomSampler (indices : list nat).

Global Instance Sampler_eq_dec : EqDecision Sampler.
Proof. solve_decision. Defined.

(** Modelled from the spec: [BatchSampler] of the [sampler] module, which is
    not among the sources: a "finite, ordered sequence of index-lists" that
    "exposes total count"; [prev] holds the samples rolled over from the
    previous pass. *)
Record BatchSampler := mkBatchSampler {
  bs_sampler : Sampler;
  bs_batch_size : nat;
  bs_last_batch : LastBatch;
  bs_prev : list nat
}.

Global Instance BatchSampler_eq_dec : EqDecision BatchSampler.
Proof. solve_decision. Defined.

Section Samplers.

(** The order a random sampler draws for a given length. *)
Variable shuffled : nat → list nat.

Definition sampler_iter (s : Sampler) : list nat :=
  match s with
  | SequentialSampler n => seq 0 n
  | RandomSampler n => shuffled n
  | CustomSampler indices => indices
  end.

(** Cut the index sequence into batches of [batch_size], starting from the
    batch under construction; returns the full batches and the remainder. *)
Fixpoint fill_batches (batch_size : nat) (batch : list nat) (indices : list nat)
  : list (list nat) * list nat :=
  match indices with
  | [] => ([], batch)
  | i :: indices' =>
      let batch' := batch ++ [i] in
      if bool_decide (length batch' = batch_size) then
        let '(full, rest) := fill_batches batch_size [] indices' in
        (batch' :: full, rest)
      else fill_batches batch_size batch' indices'
  end.

(** Modelled from the spec: one pass over a [BatchSampler].  "keep - A batch
    with less samples than previous batches is returned.  discard - The last
    batch is discarded if its incomplete.  rollover - The remaining samples
    are rolled over to the next epoch."  Returns the index-lists in order and
    the sampler after the pass. *)
Definition bs_iter (s : BatchSampler) : list (list nat) * BatchSampler :=
  let '(full, rest) :=
    fill_batches (bs_batch_size s) (bs_prev s) (sampler_iter (bs_sampler s)) in
  let done prev :=
    mkBatchSampler (bs_sampler s) (bs_batch_size s) (bs_last_batch s) prev in
  match rest with
  | [] => (full, done [])
  | _ =>
      match bs_last_batch s with
      | keep => (full ++ [rest], done [])
      | discard => (full, done [])
      | rollover => (full, done rest)
      end
  end.

(** Modelled from the spec: "length() -> int = number of index-lists it will
    yield". *)
Definition bs_len (s : BatchSampler) : nat := length (bs_iter s).1.

End Samplers.

(** ** The loader *)

(** An indexable dataset: [len(dataset)] and [dataset[i]], which may raise. *)
Record Dataset := mkDataset {
  ds_len : nat;
  ds_getitem : nat → result Sample
}.

Definition batchify := list Sample → result Batch.

Record DataLoader := mkDataLoader {
  _dataset : Dataset;
  _batch_sampler : BatchSampler;
  _num_workers : nat;
  _batchify_fn : batchify
}.

Section Loader.

Variable iter_leaf : Sample → result (list Sample).
Variable shuffled : nat → list nat.

(** [DataLoader.__init__] *)
Definition __init__ (dataset : Dataset) (batch_size : option nat)
    (shuffle : bool) (sampler : option Sampler)
    (last_batch : option LastBatch) (batch_sampler : option BatchSampler)
    (batchify_fn : option batchify) (num_workers : nat) : result DataLoader :=
  batch_sampler ←
    match batch_sampler with
    | None =>
        match batch_size with
        | None =>
            Raise (ValueError
              "batch_size must be specified unless batch_sampler is specified")
        | Some batch_size =>
            sampler ←
              match sampler with
              | None =>
                  if shuffle then Ok (RandomSampler (ds_len dataset))
                  else Ok (SequentialSampler (ds_len dataset))
              | Some sampler =>
                  if shuffle then
                    Raise (ValueError
                      "shuffle must not be specified if sampler is specified")
                  else Ok sampler
              end;
            Ok (mkBatchSampler sampler batch_size (default keep last_batch) [])
        end
    | Some batch_sampler =>
        if bool_decide (batch_size ≠ None) || shuffle
           || bool_decide (sampler ≠ None) || bool_decide (last_batch ≠ None)
        then
          Raise (ValueError
            "batch_size, shuffle, sampler and last_batch must not be specified if batch_sampler is specified.")
        else Ok batch_sampler
    end;
  Ok (mkDataLoader dataset batch_sampler num_workers
        (match batchify_fn with
         | None =>
             if bool_decide (0 < num_workers)
             then default_mp_batchify_fn iter_leaf
             else default_batchify_fn iter_leaf
         | Some batchify_fn => batchify_fn
         end)).

(** [DataLoader.__len__] *)
Definition __len__ (self : DataLoader) : nat :=
  bs_len shuffled (_batch_sampler self).

(** [[dataset[i] for i in samples]] *)
Definition fetch (dataset : Dataset) (samples : list nat) : result (list Sample) :=
  mapR (ds_getitem dataset) samples.

(** What a pass has done when it stops: the batches yielded so far, and
    either the loader after a complete pass or the exception that ended
    it. *)
Record pass := mkPass {
  yielded : list Batch;
  ending : result DataLoader
}.

(** The loop of the synchronous branch of [__iter__] over the index-lists the
    batch sampler yields. *)
Fixpoint iter_sync_loop (self : DataLoader) (batches : list (list nat))
  : list Batch * option exn :=
  match batches with
  | [] => ([], None)
  | batch :: batches' =>
      match (data ← fetch (_dataset self) batch; _batchify_fn self data) with
      | inl e => ([], Some e)
      | inr b =>
          let '(bs, e) := iter_sync_loop self batches' in (b :: bs, e)
      end
  end.

Definition with_sampler (self : DataLoader) (s : BatchSampler) : DataLoader :=
  mkDataLoader (_dataset self) s (_num_workers self) (_batchify_fn self).

(** [DataLoader.__iter__] with [num_workers == 0]. *)
Definition iter_sync (self : DataLoader) : pass :=
  let '(batches, sampler') := bs_iter shuffled (_batch_sampler self) in
  match iter_sync_loop self batches with
  | (bs, None) => mkPass bs (Ok (with_sampler self sampler'))
  | (bs, Some e) => mkPass bs (Raise e)
  end.

End Loader.

(** ** The worker *)

(** A job: the ticket and the index-list; the sentinel is [(None, None)]. *)
Definition Job : Type := option nat * option (list nat).
Definition Result : Type := nat * Batch.

Definition sentinel : Job := (None, None).

(** [SimpleQueue(maxsize=65535)]: [put] blocks while the queue holds
    [maxsize] items. *)
Definition maxsize : Z := 65535.

Definition has_room {A} (queue : list A) : bool :=
  bool_decide (Z.of_nat (length queue) < maxsize)%Z.

Inductive worker_outcome :=
  | WBreak
  | WPut (r : Result)
  | WRaise (e : exn).

(** The body of the [while True] loop of [worker_loop] from the job it got
    up to, and excluding, the [put]. *)
Definition worker_body (dataset : Dataset) (batchify_fn : batchify) (job : Job)
  : worker_outcome :=
  let '(idx, samples) := job in
  match idx with
  | None => WBreak
  | Some idx =>
      let batch :=
        match samples with
        | Some samples => data ← fetch dataset samples; batchify_fn data
        | None => Raise TypeError
        end in
      match batch with
      | inr batch => WPut (idx, batch)
      | inl e => WRaise e
      end
  end.

(** Where a worker process stands when nothing more can happen to it on the
    queues as they are. *)
Inductive worker_status :=
  | BlockedGet
  | BlockedPut (r : Result)
  | Returned
  | Died (e : exn).

(** [worker_loop], run by one process alone on the two queues: the status it
    ends in and the queues it leaves.  [get] blocks on an empty queue, [put]
    on a full one. *)
Fixpoint worker_loop (dataset : Dataset) (key_queue : list Job)
    (data_queue : list Result) (batchify_fn : batchify)
  : worker_status * list Job * list Result :=
  match key_queue with
  | [] => (BlockedGet, [], data_queue)
  | job :: key_queue' =>
      match worker_body dataset batchify_fn job with
      | WBreak => (Returned, key_queue', data_queue)
      | WRaise e => (Died e, key_queue', data_queue)
      | WPut r =>
          if has_room data_queue
          then worker_loop dataset key_queue' (data_queue ++ [r]) batchify_fn
          else (BlockedPut r, key_queue', data_queue)
      end
  end.

(** ** The reorder buffer *)

(** [while curr_idx in data_buffer: yield data_buffer.pop(curr_idx);
    curr_idx += 1].  Every round removes an entry, so the size of the
    buffer bounds the number of rounds. *)
Fixpoint flush (fuel : nat) (data_buffer : gmap nat Batch) (curr_idx : nat)
  : list Batch * gmap nat Batch * nat :=
  match fuel with
  | 0 => ([], data_buffer, curr_idx)
  | S fuel' =>
      match data_buffer !! curr_idx with
      | Some batch =>
          let '(ys, data_buffer', curr_idx') :=
            flush fuel' (delete curr_idx data_buffer) (S curr_idx) in
          (batch :: ys, data_buffer', curr_idx')
      | None => ([], data_buffer, curr_idx)
      end
  end.

(** One round of the [for] loop that drains [data_queue], from the result
    it got: the batches it yields, the buffer and the counter after it. *)
Definition receive (r : Result) (data_buffer : gmap nat Batch) (curr_idx : nat)
  : list Batch * gmap nat Batch * nat :=
  let '(idx, batch) := r in
  let data_buffer := <[idx := batch]> data_buffer in
  flush (size data_buffer) data_buffer curr_idx.

(** The draining loop of [__iter__] ([for _ in range(total)]) against the
    results the queue delivers, in the order it delivers them: the batches
    yielded, and whether the loop has run to its end ([false]: it waits in
    [data_queue.get()] for a result that has not come). *)
Fixpoint drain_loop (total : nat) (arrivals : list Result)
    (data_buffer : gmap nat Batch) (curr_idx : nat) : list Batch * bool :=
  match total with
  | 0 => ([], true)
  | S total' =>
      match arrivals with
      | [] => ([], false)
      | r :: arrivals' =>
          let '(ys, data_buffer', curr_idx') := receive r data_buffer curr_idx in
          let '(rest, finished) :=
            drain_loop total' arrivals' data_buffer' curr_idx' in
          (ys ++ rest, finished)
      end
  end.

(** ** The parallel pass as a transition system *)

(** A worker process between two queue operations. *)
Inductive worker_state :=
  | Idle
  | Holding (r : Result)
  | Exited
  | Failed (e : exn).

(** Where the dispatcher stands in the parallel branch of [__iter__]. *)
Inductive dispatcher :=
  | Enqueue (todo : list Job)
  | Drain (remaining : nat) (data_buffer : gmap nat Batch) (curr_idx : nat)
  | Stop (remaining : nat)
  | Join (next : nat)
  | Finished.

(** What the dispatcher does, in the order it does it. *)
Inductive event :=
  | Put (job : Job)
  | Get (r : Result)
  | Yield (batch : Batch)
  | Joined (worker : nat).

Record system := mkSystem {
  loader : DataLoader;
  key_queue : list Job;
  data_queue : list Result;
  workers : list worker_state;
  main : dispatcher;
  output : list Batch;
  log : list event
}.

Inductive actor := Main | Worker (w : nat).

Definition after_get (o : worker_outcome) : worker_state :=
  match o with
  | WBreak => Exited
  | WPut r => Holding r
  | WRaise e => Failed e
  end.

Definition terminated (w : worker_state) : bool :=
  match w with
  | Exited | Failed _ => true
  | Idle | Holding _ => false
  end.

(** [enumerate(self._batch_sampler)] as jobs *)
Definition jobs_of (batches : list (list nat)) : list Job :=
  imap (λ idx batch, (Some idx, Some batch)) batches.

Section Parallel.

Variable shuffled : nat → list nat.

(** The state once the queues are created and the workers are started; the
    batch sampler is iterated by [enumerate], which leaves it in the state
    after a pass. *)
Definition start (self : DataLoader) : system :=
  let '(batches, sampler') := bs_iter shuffled (_batch_sampler self) in
  mkSystem (with_sampler self sampler') [] []
    (replicate (_num_workers self) Idle)
    (Enqueue (jobs_of batches)) [] [].

(** One step of a worker: [key_queue.get()] and the work up to the [put], or
    the [data_queue.put]. *)
Definition worker_step (w : nat) (s : system) : option system :=
  match workers s !! w with
  | Some Idle =>
      match key_queue s with
      | job :: key_queue' =>
          let o := worker_body (_dataset (loader s)) (_batchify_fn (loader s)) job in
          Some (mkSystem (loader s) key_queue' (data_queue s)
                  (<[w := after_get o]> (workers s))
                  (main s) (output s) (log s))
      | [] => None
      end
  | Some (Holding r) =>
      if has_room (data_queue s) then
        Some (mkSystem (loader s) (key_queue s) (data_queue s ++ [r])
                (<[w := Idle]> (workers s))
                (main s) (output s) (log s))
      else None
  | _ => None
  end.

(** One step of the dispatcher: a queue operation, a [join], or the passage
    from one loop to the next. *)
Definition main_step (s : system) : option system :=
  match main s with
  | Enqueue (job :: todo) =>
      if has_room (key_queue s) then
        Some (mkSystem (loader s) (key_queue s ++ [job]) (data_queue s)
                (workers s) (Enqueue todo) (output s) (log s ++ [Put job]))
      else None
  | Enqueue [] =>
      Some (mkSystem (loader s) (key_queue s) (data_queue s) (workers s)
              (Drain (__len__ shuffled (loader s)) ∅ 0) (output s) (log s))
  | Drain (S remaining) data_buffer curr_idx =>
      match data_queue s with
      | r :: data_queue' =>
          let '(ys, data_buffer', curr_idx') := receive r data_buffer curr_idx in
          Some (mkSystem (loader s) (key_queue s) data_queue' (workers s)
                  (Drain remaining data_buffer' curr_idx')
                  (output s ++ ys) (log s ++ Get r :: (Yield <$> ys)))
      | [] => None
      end
  | Drain 0 _ _ =>
      Some (mkSystem (loader s) (key_queue s) (data_queue s) (workers s)
              (Stop (_num_workers (loader s))) (output s) (log s))
  | Stop (S remaining) =>
      if has_room (key_queue s) then
        Some (mkSystem (loader s) (key_queue s ++ [sentinel]) (data_queue s)
                (workers s) (Stop remaining) (output s) (log s ++ [Put sentinel]))
      else None
  | Stop 0 =>
      Some (mkSystem (loader s) (key_queue s) (data_queue s) (workers s)
              (Join 0) (output s) (log s))
  | Join next =>
      match workers s !! next with
      | Some w =>
          if terminated w then
            Some (mkSystem (loader s) (key_queue s) (data_queue s) (workers s)
                    (Join (S next)) (output s) (log s ++ [Joined next]))
          else None
      | None =>
          Some (mkSystem (loader s) (key_queue s) (data_queue s) (workers s)
                  Finished (output s) (log s))
      end
  | Finished => None
  end.

Definition step (a : actor) (s : system) : option system :=
  match a with
  | Main => main_step s
  | Worker w => worker_step w s
  end.

(** A schedule is the order in which the processes take their steps; a step
    that is not enabled (a blocked [get], [put] or [join]) stops the run. *)
Fixpoint run (schedule : list actor) (s : system) : option system :=
  match schedule with
  | [] => Some s
  | a :: schedule' =>
      match step a s with
      | Some s' => run schedule' s'
      | None => None
      end
  end.

(** [DataLoader.__iter__] with workers, under a schedule. *)
Definition iter_parallel (self : DataLoader) (schedule : list actor)
  : option system :=
  run schedule (start self).

(** [DataLoader.__iter__]: the synchronous branch when [num_workers == 0],
    the branch with workers otherwise. *)
Definition __iter__ (self : DataLoader) (schedule : list actor)
  : pass + option system :=
  if bool_decide (_num_workers self = 0) then inl (iter_sync shuffled self)
  else inr (iter_parallel self schedule).

End Parallel.

(** ** Vocabulary of the properties *)

(** The same batch with every tensor placed on [ctx]. *)
Fixpoint relocate (ctx : Context) (b : Batch) : Batch :=
  match b with
  | BNDArray a => BNDArray (mkND (nd_shape a) (nd_dtype a) ctx (nd_data a))
  | BList items => BList (relocate ctx <$> items)
  end.

Local Unset Elimination Schemes.

(** A batch without the placement of its tensors: nesting, shapes, element
    types and elements. *)
Inductive content :=
  | CTensor (shape : list nat) (dt : dtype) (elems : list Z)
  | CList (items : list content).

(** The shape of a sample: the nesting of tuples, and shape and element type
    at each leaf. *)
Inductive kind :=
  | KNDArray (shape : list nat) (dt : dtype)
  | KTuple (fields : list kind)
  | KOther (shape : list nat) (dt : dtype).

(** The shape of a batch. *)
Inductive structure :=
  | Tensor (shape : list nat) (dt : dtype)
  | Fields (fields : list structure).

Local Set Elimination Schemes.

Section KindInd.
Variable P : kind → Prop.
Hypothesis Hnd : ∀ shape dt, P (KNDArray shape dt).
Hypothesis Htuple : ∀ ks, Forall P ks → P (KTuple ks).
Hypothesis Hother : ∀ shape dt, P (KOther shape dt).

Fixpoint kind_ind' (k : kind) : P k :=
  match k with
  | KNDArray shape dt => Hnd shape dt
  | KTuple ks =>
      Htuple ks
        ((fix go (l : list kind) : Forall P l :=
            match l with
            | [] => Forall_nil_2 P
            | x :: l' => Forall_cons_2 P x l' (kind_ind' x) (go l')
            end) ks)
  | KOther shape dt => Hother shape dt
  end.
End KindInd.

Fixpoint contents (b : Batch) : content :=
  match b with
  | BNDArray a => CTensor (nd_shape a) (nd_dtype a) (nd_data a)
  | BList items => CList (contents <$> items)
  end.

Fixpoint placed (ctx : Context) (b : Batch) : Prop :=
  match b with
  | BNDArray a => nd_ctx a = ctx
  | BList items => foldr (λ b P, placed ctx b ∧ P) True items
  end.

Fixpoint kind_of (s : Sample) : kind :=
  match s with
  | SNDArray a => KNDArray (nd_shape a) (nd_dtype a)
  | STuple fields => KTuple (kind_of <$> fields)
  | SOther v => KOther (np_shape v) (np_dtype v)
  end.

Fixpoint structure_of (b : Batch) : structure :=
  match b with
  | BNDArray a => Tensor (nd_shape a) (nd_dtype a)
  | BList items => Fields (structure_of <$> items)
  end.

(** The sample shape with a leading dimension [n] added at every leaf. *)
Fixpoint batched (n : nat) (k : kind) : structure :=
  match k with
  | KNDArray shape dt | KOther shape dt => Tensor (n :: shape) dt
  | KTuple fields => Fields (batched n <$> fields)
  end.

(** The elements of a leaf sample, and where it lives. *)
Definition leaf_data (s : Sample) : list Z :=
  match s with
  | SNDArray a => nd_data a
  | SOther v => np_data v
  | STuple _ => []
  end.

Definition leaf_ctx (s : Sample) : Context :=
  match s with
  | SNDArray a => nd_ctx a
  | _ => cpu 0
  end.

(** The [j]-th field of every sample that has one. *)
Definition column (j : nat) (data : list Sample) : list Sample :=
  omap (λ s, match s with STuple fields => fields !! j | _ => None end) data.

(** Collation as the spec words it, by recursion on the shape of the samples:
    a tensor leaf is stacked "along a new leading dimension, producing one
    tensor of shape [len] + leaf_shape"; a tuple is collated "field-by-field
    ..., preserving field order and arity"; any other leaf is converted to a
    tensor. *)
Fixpoint spec_collate (k : kind) (data : list Sample) : Batch :=
  match k with
  | KNDArray shape dt =>
      BNDArray (mkND (length data :: shape) dt
                  (default (cpu 0) (leaf_ctx <$> head data))
                  (concat (leaf_data <$> data)))
  | KTuple fields =>
      BList ((fix each (j : nat) (fields : list kind) : list Batch :=
                match fields with
                | [] => []
                | k :: fields' => spec_collate k (column j data) :: each (S j) fields'
                end) 0 fields)
  | KOther shape dt =>
      BNDArray (mkND (length data :: shape) dt (cpu 0)
                  (concat (leaf_data <$> data)))
  end.

(** The conflicts among the arguments of the constructor. *)
Definition conflict (batch_size : option nat) (shuffle : bool)
    (sampler : option Sampler) (last_batch : option LastBatch)
    (batch_sampler : option BatchSampler) : Prop :=
  (batch_sampler = None ∧ batch_size = None)
  ∨ (shuffle = true ∧ sampler ≠ None)
  ∨ (batch_sampler ≠ None
     ∧ (batch_size ≠ None ∨ shuffle = true ∨ sampler ≠ None ∨ last_batch ≠ None)).

(** The results that carry the batches, each under its ticket. *)
Definition ticketed (batches : list Batch) : list Result :=
  imap (λ idx batch, (idx, batch)) batches.

(** What the reorder buffer maintains between two results, with respect to
    the batches in sampler order: it is ahead of nothing it holds, it holds
    only batches under their own ticket, and every result seen so far is
    either behind the counter or in the buffer. *)
Definition reorder_inv (batches : list Batch) (seen : list Result)
    (data_buffer : gmap nat Batch) (curr_idx : nat) : Prop :=
  curr_idx ≤ length batches
  ∧ data_buffer !! curr_idx = None
  ∧ (∀ i b, data_buffer !! i = Some b → batches !! i = Some b)
  ∧ (∀ i b, (i, b) ∈ seen → i < curr_idx ∨ data_buffer !! i = Some b).

(** The results the dispatcher has taken from the result queue, read off
    its log. *)
Definition received (l : list event) : list Result :=
  omap (λ e, match e with Get r => Some r | _ => None end) l.

(** A stretch of the log in which the dispatcher only receives and yields. *)
Definition draining (l : list event) : Prop :=
  Forall (λ e, match e with Get _ | Yield _ => True | _ => False end) l.

(** The log of a pass over [jobs] with [n] workers that drains [total]
    results, as far as the dispatcher has come. *)
Definition protocol_inv (jobs : list Job) (total n : nat) (s : system) : Prop :=
  length (workers s) = n
  ∧ match main s with
    | Enqueue todo =>
        ∃ sent, jobs = sent ++ todo ∧ log s = Put <$> sent
    | Drain remaining _ _ =>
        ∃ mid, log s = (Put <$> jobs) ++ mid
          ∧ draining mid ∧ length (received mid) + remaining = total
    | Stop remaining =>
        ∃ mid, log s = (Put <$> jobs) ++ mid
                 ++ replicate (n - remaining) (Put sentinel)
          ∧ draining mid ∧ length (received mid) = total ∧ remaining ≤ n
    | Join next =>
        ∃ mid, log s = (Put <$> jobs) ++ mid
                 ++ replicate n (Put sentinel) ++ (Joined <$> seq 0 next)
          ∧ draining mid ∧ length (received mid) = total ∧ next ≤ n
          ∧ ∀ w st, w < next → workers s !! w = Some st → terminated st = true
    | Finished =>
        ∃ mid, log s = (Put <$> jobs) ++ mid
                 ++ replicate n (Put sentinel) ++ (Joined <$> seq 0 n)
          ∧ draining mid ∧ length (received mid) = total
          ∧ Forall (λ st, terminated st = true) (workers s)
    end.

(** The results the workers hold between their [get] and their [put]. *)
Definition held (ws : list worker_state) : list Result :=
  omap (λ st, match st with Holding r => Some r | _ => None end) ws.

(** The tickets of the jobs of a queue; a sentinel has none. *)
Definition tickets (jobs : list Job) : list nat := omap fst jobs.

(** The jobs the dispatcher has still to put on the job queue. *)
Definition todo (s : system) : list Job :=
  match main s with
  | Enqueue todo => todo
  | _ => []
  end.

(** Every ticket that is somewhere in the system: waiting to be sent, on the
    job queue, with a worker, on the result queue, or received. *)
Definition in_flight (s : system) : gmultiset nat :=
  list_to_set_disj (tickets (todo s))
  ⊎ list_to_set_disj (tickets (key_queue s))
  ⊎ list_to_set_disj ((held (workers s)).*1)
  ⊎ list_to_set_disj ((data_queue s).*1)
  ⊎ list_to_set_disj ((received (log s)).*1).

(** A job of the pass over [batches] carries the index-list at the position
    its ticket names. *)
Definition valid_job (batches : list (list nat)) (job : Job) : Prop :=
  match job with
  | (Some idx, Some samples) => batches !! idx = Some samples
  | (Some _, None) => False
  | (None, _) => True
  end.

(** What holds of the data in a pass over [batches] whose batches, collated
    one by one in sampler order, are [bs]: the jobs are those of the
    sampler, every result carries the batch of its ticket, and the
    dispatcher has yielded the batches before its counter. *)
Definition data_inv (batches : list (list nat)) (bs : list Batch) (s : system)
  : Prop :=
  Forall (valid_job batches) (todo s ++ key_queue s)
  ∧ Forall (λ r, bs !! r.1 = Some r.2)
      (held (workers s) ++ data_queue s ++ received (log s))
  ∧ match main s with
    | Enqueue _ => output s = [] ∧ received (log s) = []
    | Drain _ data_buffer curr_idx =>
        reorder_inv bs (received (log s)) data_buffer curr_idx
        ∧ output s = take curr_idx bs
    | _ =>
        ∃ data_buffer curr_idx,
          reorder_inv bs (received (log s)) data_buffer curr_idx
          ∧ output s = take curr_idx bs
    end.

(** ** Examples *)

(** Samples that are not tuples refuse to be iterated. *)
Definition no_iter : Sample → result (list Sample) := λ _, Raise TypeError.

(** A random sampler that happens to draw the natural order. *)
Definition in_order (n : nat) : list nat := seq 0 n.

(** A dataset of ten numbers. *)
Definition ten : Dataset :=
  mkDataset 10
    (λ i, if bool_decide (i < 10) then Ok (SOther (mkNP [] int64 [Z.of_nat i]))
          else Raise IndexError).

(** [DataLoader(ten, batch_size=4, last_batch='rollover', num_workers=1)] *)
Definition rollover_loader : DataLoader :=
  mkDataLoader ten (mkBatchSampler (SequentialSampler 10) 4 rollover []) 1
    (default_mp_batchify_fn no_iter).

(** A schedule that takes [rollover_loader] as far as it gets: both jobs are
    sent, worked on and received. *)
Definition rollover_schedule : list actor :=
  [Main; Main; Main; Worker 0; Worker 0; Worker 0; Worker 0; Main; Main].

(** The batch sampler of [rollover_loader] after one pass over it, and a
    loader built on it with [batch_sampler=]. *)
Definition used_sampler : BatchSampler :=
  mkBatchSampler (SequentialSampler 10) 4 rollover [8; 9].

Definition second_loader : DataLoader :=
  mkDataLoader ten used_sampler 1 (default_mp_batchify_fn no_iter).

Definition second_schedule : list actor :=
  [Main; Main; Main; Main; Worker 0; Worker 0; Worker 0; Worker 0; Main; Main;
   Main; Main; Main; Worker 0; Worker 0; Worker 0; Main; Main].

(** [DataLoader(ten, batch_size=4, num_workers=2)], and a schedule under
    which the second worker overtakes the first: the results arrive in the
    order 1, 2, 0. *)
Definition keep_loader : DataLoader :=
  mkDataLoader ten (mkBatchSampler (SequentialSampler 10) 4 keep []) 2
    (default_mp_batchify_fn no_iter).

Definition keep_schedule : list actor :=
  [Main; Main; Main; Main;
   Worker 0; Worker 1; Worker 1; Worker 1; Worker 1; Worker 0;
   Main; Main; Main; Main; Main; Main; Main;
   Worker 0; Worker 1; Main; Main; Main].

(** Three batches and their results in the order 2, 0, 1. *)
Definition three_batches : list Batch :=
  [ BNDArray (mkND [2] int64 shared [0; 1]%Z);
    BNDArray (mkND [2] int64 shared [2; 3]%Z);
    BNDArray (mkND [1] int64 shared [4]%Z) ].

Definition late_arrivals : list Result :=
  [ (2, BNDArray (mkND [1] int64 shared [4]%Z));
    (0, BNDArray (mkND [2] int64 shared [0; 1]%Z));
    (1, BNDArray (mkND [2] int64 shared [2; 3]%Z)) ].

(** Two samples, each an image with its label. *)
Definition labelled : list Sample :=
  [ STuple [SNDArray (mkND [2] float32 (cpu 0) [1; 2]%Z);
            SOther (mkNP [] int64 [7]%Z)];
    STuple [SNDArray (mkND [2] float32 (cpu 0) [3; 4]%Z);
            SOther (mkNP [] int64 [8]%Z)] ].

Definition labelled_kind : kind :=
  KTuple [KNDArray [2] float32; KOther [] int64].

(** A job and the result a worker publishes for it: the job names the
    index-list, and the result carries the job's ticket and the batch the
    batchify function makes of the samples fetched there. *)
Definition answers (dataset : Dataset) (batchify_fn : batchify)
    (job : Job) (r : Result) : Prop :=
  ∃ samples, job = (Some r.1, Some samples)
    ∧ fetch dataset samples ≫= batchify_fn = Ok r.2.

(** A result of the pass of [self] over [batches]: its ticket names an
    index-list, and its batch is what the batchify function makes of the
    samples fetched there. *)
Definition collated (self : DataLoader) (batches : list (list nat))
    (r : Result) : Prop :=
  ∃ samples, batches !! r.1 = Some samples
    ∧ fetch (_dataset self) samples ≫= _batchify_fn self = Ok r.2.

(** Whatever the workers do, the jobs in the system are jobs of the pass and
    the results in the system are results of the pass. *)
Definition sound_inv (self : DataLoader) (batches : list (list nat))
    (s : system) : Prop :=
  Forall (valid_job batches) (todo s ++ key_queue s)
  ∧ Forall (collated self batches)
      (held (workers s) ++ data_queue s ++ received (log s)).

(** What the dispatcher has yielded at position [k] it has received under
    the ticket [k]; while it drains, the counter is the number of batches
    yielded and the buffer holds received results under their tickets. *)
Definition yielded_inv (s : system) : Prop :=
  (∀ k b, output s !! k = Some b → (k, b) ∈ received (log s))
  ∧ match main s with
    | Enqueue _ => output s = []
    | Drain _ data_buffer curr_idx =>
        length (output s) = curr_idx
        ∧ ∀ i b, data_buffer !! i = Some b → (i, b) ∈ received (log s)
    | _ => True
    end.

(** ** Further examples *)

(** [DataLoader(ten, batch_size=4)]: no workers. *)
Definition sync_loader : DataLoader :=
  mkDataLoader ten (mkBatchSampler (SequentialSampler 10) 4 keep []) 0
    (default_batchify_fn no_iter).

(** A loader over [ten] whose sampler names an index the dataset lacks: the
    third index-list cannot be fetched. *)
Definition faulty_sampler : Sampler :=
  CustomSampler [0; 1; 2; 3; 12; 5; 6; 7].

Definition faulty_loader : DataLoader :=
  mkDataLoader ten (mkBatchSampler faulty_sampler 2 keep []) 0
    (default_batchify_fn no_iter).

(** Tuples of different lengths. *)
Definition ragged : list (list Sample) :=
  [ [SOther (mkNP [] int64 [1]%Z); SOther (mkNP [] int64 [2]%Z)];
    [SOther (mkNP [] int64 [3]%Z)] ].

(** [faulty_loader] with two workers, and a schedule under which the first
    worker dies on the third job while the second goes on: the results
    0, 1 and 3 are received. *)
Definition faulty_parallel : DataLoader :=
  mkDataLoader ten (mkBatchSampler faulty_sampler 2 keep []) 2
    (default_mp_batchify_fn no_iter).

Definition faulty_schedule : list actor :=
  [Main; Main; Main; Main; Main;
   Worker 0; Worker 0; Worker 1; Worker 1; Worker 0; Worker 1; Worker 1;
   Main; Main; Main].

(** Whether a worker is waiting for a job, and the workers that are not. *)
Definition is_idle (st : worker_state) : bool :=
  match st with
  | Idle => true
  | _ => false
  end.

Definition busy (ws : list worker_state) : list worker_state :=
  omap (λ st, if is_idle st then None else Some st) ws.

(** While the dispatcher enqueues, every job it has sent is on the job
    queue, with a worker that has taken it, or behind a result on the result
    queue; and nothing has been yielded. *)
Definition enqueue_inv (jobs : list Job) (s : system) : Prop :=
  match main s with
  | Enqueue todo =>
      ∃ sent, jobs = sent ++ todo
        ∧ length sent
          ≤ length (key_queue s) + length (data_queue s)
            + length (busy (workers s))
        ∧ output s = []
  | _ => True
  end.

(** A dataset of 131072 numbers, read one sample a batch by one worker. *)
Definition many : Dataset :=
  mkDataset (Z.to_nat 131072) (λ i, Ok (SOther (mkNP [] int64 [Z.of_nat i]))).

Definition many_loader : DataLoader :=
  mkDataLoader many
    (mkBatchSampler (SequentialSampler (Z.to_nat 131072)) 1 keep []) 1
    (default_mp_batchify_fn no_iter).

(** A schedule for a pass of [jobs] index-lists with [workers] workers: the
    dispatcher enqueues everything, the first worker does all the work, the
    dispatcher drains, and the workers take their sentinels one after the
    other. *)
Definition finishing_schedule (jobs workers : nat) : list actor :=
  replicate jobs Main ++ [Main]
  ++ concat (replicate jobs [Worker 0; Worker 0])
  ++ replicate jobs Main ++ [Main]
  ++ concat ((λ w, [Main; Worker w]) <$> seq 0 workers) ++ [Main]
  ++ replicate workers Main ++ [Main].

(** Nothing has gone through the queues of a pass: both queues are empty and
    the dispatcher has neither put a job nor taken a result.  This is what a
    pass would look like at every moment if every [put] on a queue ended in
    the [NameError] of [ConnectionWrapper.send]. *)
Definition nothing_transmitted (s : system) : Prop :=
  key_queue s = [] ∧ data_queue s = []
  ∧ Forall (λ e, match e with Put _ | Get _ => False | _ => True end) (log s).

(** * Properties *)

(** ** Collation *)

Section BatchifyFacts.

Variable iter_leaf : Sample → result (list Sample).

Lemma relocate_contents ctx b : contents (relocate ctx b) = contents b.
Proof.
  induction b as [a|bs IH] using Batch_ind'; simpl; [done|].
  f_equal. rewrite <-list_fmap_compose.
  apply Forall_fmap_ext_1, IH.
Qed.

Lemma relocate_placed ctx b : placed ctx (relocate ctx b).
Proof.
  induction b as [a|bs IH] using Batch_ind'; simpl; [done|].
  induction IH; simpl; auto.
Qed.

Lemma nd_stack_out x a0 rest :
  x = SNDArray a0 →
  nd_stack (x :: rest)
    (Some (nd_empty (length (x :: rest) :: nd_shape a0) (nd_dtype a0) shared))
  = a ← nd_stack (x :: rest) None;
    Ok (mkND (nd_shape a) (nd_dtype a) shared (nd_data a)).
Proof.
  intros ->. unfold nd_stack. simpl.
  destruct (mapR as_ndarray rest) as [e|ts] eqn:Hts; simpl; [done|].
  assert (length ts = length rest) as Hlen.
  { clear -Hts. revert ts Hts. induction rest as [|s rest IH]; intros ts; simpl.
    - by intros [= <-].
    - destruct (as_ndarray s); simpl; [done|].
      destruct (mapR as_ndarray rest); simpl; [done|].
      intros [= <-]. simpl. f_equal. by apply IH. }
  rewrite Hlen.
  destruct (same_kind a0 a0 && forallb (same_kind a0) ts); simpl; [|done].
  rewrite bool_decide_true; done.
Qed.

Lemma mp_batchify_from_relocate x rest :
  mp_batchify_from iter_leaf x rest
  = relocate shared <$> batchify_from iter_leaf x rest.
Proof.
  revert rest.
  induction x as [a|fs IH|v] using Sample_ind'; intros rest.
  - cbn [mp_batchify_from batchify_from].
    rewrite (nd_stack_out _ a) by done.
    destruct (nd_stack (SNDArray a :: rest) None); done.
  - cbn [mp_batchify_from batchify_from].
    destruct (mapR (sample_iter iter_leaf) rest) as [e|its]; simpl; [done|].
    assert (∀ its, collate_columns (mp_batchify_from iter_leaf) fs its
              = fmap (relocate shared)
                  <$> collate_columns (batchify_from iter_leaf) fs its) as ->.
    { induction IH as [|f fs Hf _ IHfs]; intros its'; [done|]. simpl.
      destruct (zip_next its') as [[hs ts]|]; [|done].
      rewrite Hf, IHfs.
      destruct (batchify_from iter_leaf f hs); simpl; [done|].
      destruct (collate_columns (batchify_from iter_leaf) fs ts); done. }
    destruct (collate_columns (batchify_from iter_leaf) fs its); done.
  - cbn [mp_batchify_from batchify_from].
    destruct (np_asarray (SOther v :: rest)); done.
Qed.

(** C7: on every list of samples the shared-memory collate function returns
    what the direct one returns with every tensor moved to shared memory:
    both raise the same exception, or both return batches of the same
    nesting, shapes, element types and elements, and the shared-memory batch
    lives in [cpu_shared(0)]. *)
Theorem mp_batchify_same_values (data : list Sample) :
  default_mp_batchify_fn iter_leaf data
    = relocate shared <$> default_batchify_fn iter_leaf data
  ∧ contents <$> default_mp_batchify_fn iter_leaf data
    = contents <$> default_batchify_fn iter_leaf data
  ∧ (∀ b, default_mp_batchify_fn iter_leaf data = Ok b → placed shared b).
Proof.
  assert (default_mp_batchify_fn iter_leaf data
          = relocate shared <$> default_batchify_fn iter_leaf data) as Heq.
  { destruct data as [|x rest]; [done|]. apply mp_batchify_from_relocate. }
  split; [done|]. rewrite Heq. split.
  - destruct (default_batchify_fn iter_leaf data); simpl; [done|].
    unfold fmap, result_fmap. by rewrite relocate_contents.
  - intros b. destruct (default_batchify_fn iter_leaf data); simpl; [done|].
    intros [= <-]. apply relocate_placed.
Qed.

(** The defining equation of [default_batchify_fn], in the words of the
    source. *)
Lemma default_batchify_fn_unfold (data : list Sample) :
  default_batchify_fn iter_leaf data =
  match data !! 0 with
  | None => Raise IndexError
  | Some (SNDArray _) => a ← nd_stack data None; Ok (BNDArray a)
  | Some (STuple _) =>
      data ← zip_star iter_leaf data;
      bs ← mapR (default_batchify_fn iter_leaf) data;
      Ok (BList bs)
  | Some (SOther _) =>
      data ← np_asarray data;
      Ok (BNDArray (nd_array data (np_dtype data) None))
  end.
Proof.
  destruct data as [|[a|fs|v] rest]; try done.
  cbn [default_batchify_fn batchify_from lookup list_lookup].
  unfold zip_star. cbn [mapR sample_iter]. simpl.
  destruct (mapR (sample_iter iter_leaf) rest) as [e|its]; simpl; [done|].
  f_equal. revert its. induction fs as [|f fs IH]; intros its; [done|].
  simpl. destruct (zip_next its) as [[hs ts]|]; [|done].
  simpl. by rewrite IH.
Qed.

Lemma default_mp_batchify_fn_unfold (data : list Sample) :
  default_mp_batchify_fn iter_leaf data =
  match data !! 0 with
  | None => Raise IndexError
  | Some (SNDArray a0) =>
      let out := nd_empty (length data :: nd_shape a0) (nd_dtype a0) shared in
      a ← nd_stack data (Some out); Ok (BNDArray a)
  | Some (STuple _) =>
      data ← zip_star iter_leaf data;
      bs ← mapR (default_mp_batchify_fn iter_leaf) data;
      Ok (BList bs)
  | Some (SOther _) =>
      data ← np_asarray data;
      Ok (BNDArray (nd_array data (np_dtype data) (Some shared)))
  end.
Proof.
  destruct data as [|[a|fs|v] rest]; try done.
  cbn [default_mp_batchify_fn mp_batchify_from lookup list_lookup].
  unfold zip_star. cbn [mapR sample_iter]. simpl.
  destruct (mapR (sample_iter iter_leaf) rest) as [e|its]; simpl; [done|].
  f_equal. revert its. induction fs as [|f fs IH]; intros its; [done|].
  simpl. destruct (zip_next its) as [[hs ts]|]; [|done].
  simpl. by rewrite IH.
Qed.

Lemma mapR_fmap_Ok {A B} (f : A → result B) (g : B → A) (l : list B) :
  (∀ x, f (g x) = Ok x) → mapR f (g <$> l) = Ok l.
Proof.
  intros Hfg. induction l as [|x l IH]; [done|].
  rewrite fmap_cons. simpl. rewrite Hfg. simpl. by rewrite IH.
Qed.

Lemma nd_stack_uniform shape dt (arrays : list NDArray) :
  arrays ≠ [] →
  Forall (λ a, nd_shape a = shape ∧ nd_dtype a = dt) arrays →
  nd_stack (SNDArray <$> arrays) None
  = Ok (mkND (length arrays :: shape) dt
          (default (cpu 0) (nd_ctx <$> head arrays))
          (concat (nd_data <$> arrays))).
Proof.
  intros Hne Harrays. unfold nd_stack. rewrite mapR_fmap_Ok by done.
  destruct arrays as [|a arrays]; [done|].
  cbn [mbind result_bind Ok].
  assert (forallb (same_kind a) (a :: arrays) = true) as ->.
  { apply Is_true_eq_true, forallb_True. inversion Harrays as [|?? [Ha1 Ha2] Hrest]; subst.
    eapply Forall_impl; [exact Harrays|]. intros b [Hb1 Hb2].
    unfold same_kind. apply bool_decide_pack. by rewrite Hb1, Hb2. }
  by inversion Harrays as [|?? [<- <-] _]; subst.
Qed.

Lemma np_asarray_uniform shape dt (vs : list nparray) :
  vs ≠ [] →
  Forall (λ v, np_shape v = shape ∧ np_dtype v = dt) vs →
  np_asarray (SOther <$> vs)
  = Ok (mkNP (length vs :: shape) dt (concat (np_data <$> vs))).
Proof.
  intros Hne Hvs. unfold np_asarray. rewrite mapR_fmap_Ok by done.
  destruct vs as [|v vs]; [done|].
  cbn [mbind result_bind Ok].
  assert (forallb (same_np v) (v :: vs) = true) as ->.
  { apply Is_true_eq_true, forallb_True. inversion Hvs as [|?? [Ha1 Ha2] Hrest]; subst.
    eapply Forall_impl; [exact Hvs|]. intros b [Hb1 Hb2].
    unfold same_np. apply bool_decide_pack. by rewrite Hb1, Hb2. }
  by inversion Hvs as [|?? [<- <-] _]; subst.
Qed.

Lemma uniform_ndarrays shape dt (data : list Sample) :
  Forall (λ s, kind_of s = KNDArray shape dt) data →
  ∃ arrays, data = SNDArray <$> arrays
    ∧ Forall (λ a, nd_shape a = shape ∧ nd_dtype a = dt) arrays.
Proof.
  induction 1 as [|s data Hs _ (arrays & -> & Harrays)].
  - by exists [].
  - destruct s as [a| |]; try done. injection Hs as <- <-.
    exists (a :: arrays). split; [done|]. by constructor.
Qed.

Lemma uniform_nparrays shape dt (data : list Sample) :
  Forall (λ s, kind_of s = KOther shape dt) data →
  ∃ vs, data = SOther <$> vs
    ∧ Forall (λ v, np_shape v = shape ∧ np_dtype v = dt) vs.
Proof.
  induction 1 as [|s data Hs _ (vs & -> & Hvs)].
  - by exists [].
  - destruct s as [| |v]; try done. injection Hs as <- <-.
    exists (v :: vs). split; [done|]. by constructor.
Qed.

Lemma uniform_tuples ks (data : list Sample) :
  Forall (λ s, kind_of s = KTuple ks) data →
  ∃ rows, data = STuple <$> rows
    ∧ Forall (λ r, kind_of <$> r = ks) rows.
Proof.
  induction 1 as [|s data Hs _ (rows & -> & Hrows)].
  - by exists [].
  - destruct s as [|r|]; try done. injection Hs as <-.
    exists (r :: rows). split; [done|]. by constructor.
Qed.

Lemma column_tuples j (rows : list (list Sample)) :
  column j (STuple <$> rows) = omap (λ r, r !! j) rows.
Proof. unfold column. induction rows as [|r rows IH]; [done|]. csimpl. by rewrite IH. Qed.

(** In rows of one shape, [zip] finds a [j]-th item in every row as long as
    the shape has a [j]-th field. *)
Lemma zip_next_uniform ks k j (rows : list (list Sample)) :
  Forall (λ r, kind_of <$> r = ks) rows →
  ks !! j = Some k →
  ∃ hs, omap (λ r, r !! j) rows = hs
    ∧ zip_next (drop j <$> rows) = Some (hs, drop (S j) <$> rows)
    ∧ length hs = length rows
    ∧ Forall (λ s, kind_of s = k) hs.
Proof.
  intros Hrows Hk. eexists. split; [done|].
  induction Hrows as [|r rows Hr _ (IH1 & IH2 & IH3)]; [done|].
  assert (∃ f, r !! j = Some f ∧ kind_of f = k) as (f & Hf & Hkf).
  { rewrite <-Hr, list_lookup_fmap in Hk.
    destruct (r !! j) as [f|]; [|done]. injection Hk as <-. by exists f. }
  csimpl. rewrite Hf. csimpl.
  rewrite (drop_S _ _ _ Hf). rewrite IH1.
  split; [done|]. split; [by f_equal|]. by constructor.
Qed.

(** C3: on a non-empty list of samples of one shape, [default_batchify_fn]
    returns the batch the spec describes: a tensor leaf becomes one tensor of
    shape [n] + leaf_shape holding the samples' elements in sample order, a
    tuple becomes the list of its collated fields in field order, any other
    leaf becomes a tensor; so the batch has the samples' nesting with the
    leading dimension [n] at every leaf. *)
Theorem default_batchify_structure (k : kind) (data : list Sample) :
  data ≠ [] →
  Forall (λ s, kind_of s = k) data →
  default_batchify_fn iter_leaf data = Ok (spec_collate k data)
  ∧ structure_of (spec_collate k data) = batched (length data) k.
Proof.
  revert data.
  induction k as [shape dt|ks IH|shape dt] using kind_ind'; intros data Hne Hdata.
  - apply uniform_ndarrays in Hdata as (arrays & -> & Harrays).
    destruct arrays as [|a arrays]; [done|]. split; [|done].
    rewrite fmap_cons. cbn [default_batchify_fn batchify_from].
    rewrite <-fmap_cons, (nd_stack_uniform shape dt) by done.
    inversion Harrays as [|?? [<- <-] _]; subst.
    rewrite fmap_cons. cbn [spec_collate head fmap option_fmap option_map default].
    cbn [mbind result_bind Ok leaf_ctx]. rewrite <-fmap_cons.
    by rewrite length_fmap, <-list_fmap_compose.
  - apply uniform_tuples in Hdata as (rows & -> & Hrows).
    destruct rows as [|r rows]; [done|].
    inversion Hrows as [|?? Hr Hrows']; subst.
    cbn [default_batchify_fn batchify_from fmap list_fmap].
    rewrite mapR_fmap_Ok by done. simpl.
    set (data := STuple r :: (STuple <$> rows)).
    set (each := fix each (j : nat) (fields : list kind) : list Batch :=
           match fields with
           | [] => []
           | k :: fields' => spec_collate k (column j data) :: each (S j) fields'
           end).
    assert (∀ j ks', drop j (kind_of <$> r) = ks' →
              collate_columns (batchify_from iter_leaf) (drop j r) (drop j <$> rows)
                = Ok (each j ks')
              ∧ structure_of <$> each j ks'
                = batched (S (length (STuple <$> rows))) <$> ks') as Hcols.
    { intros j ks'. revert j. induction ks' as [|k ks' IHks]; intros j Hj.
      - rewrite <-fmap_drop in Hj. apply fmap_nil_inv in Hj. by rewrite Hj.
      - assert ((kind_of <$> r) !! j = Some k) as Hk.
        { rewrite <-(Nat.add_0_r j), <-lookup_drop, Hj. done. }
        assert (drop (S j) (kind_of <$> r) = ks') as Hj'.
        { by rewrite <-Nat.add_1_r, <-drop_drop, Hj. }
        destruct (zip_next_uniform _ _ _ _ Hrows' Hk) as (hs & Hhs & Hz & Hlen & Hkinds).
        assert (∃ f, r !! j = Some f ∧ kind_of f = k) as (f & Hf & Hkf).
        { rewrite list_lookup_fmap in Hk.
          destruct (r !! j) as [f|]; [|done]. injection Hk as <-. by exists f. }
        assert (column j data = f :: hs) as Hcol.
        { rewrite <-Hhs, <-column_tuples. unfold data, column.
          csimpl. by rewrite Hf. }
        rewrite Forall_forall in IH.
        destruct (IH k) with (data := f :: hs) as [Hb Hs].
        { apply list_elem_of_lookup. eauto. }
        { done. }
        { by constructor. }
        change (each j (k :: ks'))
          with (spec_collate k (column j data) :: each (S j) ks').
        rewrite Hcol, (drop_S _ _ _ Hf).
        cbn [collate_columns]. rewrite Hz.
        destruct (IHks _ Hj') as [-> IHs].
        cbn [default_batchify_fn] in Hb. rewrite Hb.
        split; [done|].
        rewrite !fmap_cons, Hs, IHs. cbn [length].
        by rewrite length_fmap, Hlen. }
    destruct (Hcols 0 (kind_of <$> r)) as [Hc Hs]; [done|].
    rewrite drop_0 in Hc.
    rewrite (list_fmap_id rows : drop 0 <$> rows = rows) in Hc.
    rewrite Hc. split; [done|].
    cbn [spec_collate structure_of batched]. f_equal. exact Hs.
  - apply uniform_nparrays in Hdata as (vs & -> & Hvs).
    destruct vs as [|v vs]; [done|]. split; [|done].
    rewrite fmap_cons. cbn [default_batchify_fn batchify_from].
    rewrite <-fmap_cons, (np_asarray_uniform shape dt) by done.
    inversion Hvs as [|?? [<- <-] _]; subst.
    cbn [spec_collate mbind result_bind Ok nd_array np_shape np_dtype np_data default].
    by rewrite length_fmap, <-list_fmap_compose.
Qed.

(** C10: on the empty list both default collate functions raise the
    [IndexError] of [data[0]], and a worker that gets a job with an empty
    index-list and collates with either of them dies of it: it puts nothing
    on the result queue. *)
Theorem batchify_empty_fails (dataset : Dataset) (idx : nat)
    (key_queue : list Job) (data_queue : list Result) :
  default_batchify_fn iter_leaf [] = Raise IndexError
  ∧ default_mp_batchify_fn iter_leaf [] = Raise IndexError
  ∧ worker_loop dataset ((Some idx, Some []) :: key_queue) data_queue
      (default_batchify_fn iter_leaf)
    = (Died IndexError, key_queue, data_queue)
  ∧ worker_loop dataset ((Some idx, Some []) :: key_queue) data_queue
      (default_mp_batchify_fn iter_leaf)
    = (Died IndexError, key_queue, data_queue)
  ∧ after_get (worker_body dataset (default_batchify_fn iter_leaf)
                 (Some idx, Some [])) = Failed IndexError
  ∧ after_get (worker_body dataset (default_mp_batchify_fn iter_leaf)
                 (Some idx, Some [])) = Failed IndexError.
Proof. done. Qed.

End BatchifyFacts.

(** ** The connection wrapper *)

(** C8, as amended: a call of [ConnectionWrapper.send] raises [NameError] for
    the name [io], which the module never binds, whatever the object and the
    connection; nothing is written to the connection, so the call never
    succeeds.  The amended claim says this of [send] itself and no longer of
    the jobs and results of a pass with workers. *)
Theorem send_raises_NameError {Obj : Type} (dumps : Obj → list Byte.byte)
    (self : ConnectionWrapper) (obj : Obj) :
  send dumps self obj = (Raise (NameError "io"), self)
  ∧ conn_sent (conn (send dumps self obj).2) = conn_sent (conn self)
  ∧ (send dumps self obj).1 ≠ Ok ().
Proof. by vm_compute. Qed.

(** C8, as stated, fails for the queues: [SimpleQueue] defines [__init__] and
    [_make_methods] only, [put] and [get] are those of the library's queue,
    and the pass calls nothing else on a queue.  In the pass of ten samples in
    batches of four with two workers, the first step of the dispatcher
    leaves a job on the job queue, and under the schedule [keep_schedule]
    the three jobs and the three results go through the queues and the pass
    finishes with its three batches. *)
Lemma send_on_queues_counterexample :
  ¬ (∀ schedule s,
       iter_parallel in_order keep_loader schedule = Some s →
       nothing_transmitted s).
Proof.
  intros Hclaim.
  destruct (iter_parallel in_order keep_loader keep_schedule) as [s|] eqn:Hrun.
  2:{ vm_compute in Hrun. discriminate Hrun. }
  destruct (Hclaim _ _ Hrun) as (_ & _ & Hlog).
  vm_compute in Hrun. injection Hrun as <-. cbn [log] in Hlog.
  by inversion Hlog.
Qed.

(** ** The constructor *)

Section InitFacts.

Variable iter_leaf : Sample → result (list Sample).

Local Ltac has_conflict :=
  solve [ left; split; congruence
        | right; left; split; congruence
        | right; right; split;
          [ congruence
          | first [ left; congruence
                  | right; left; congruence
                  | right; right; left; congruence
                  | right; right; right; congruence ] ] ].

Local Ltac no_conflict :=
  intros [[? ?]|[[? ?]|[? [?|[?|[?|?]]]]]]; congruence.

(** C6: the constructor raises a [ValueError] exactly on the conflicts among
    its arguments, and returns a loader on every other configuration. *)
Theorem init_fails_iff_conflict (dataset : Dataset) (batch_size : option nat)
    (shuffle : bool) (sampler : option Sampler)
    (last_batch : option LastBatch) (batch_sampler : option BatchSampler)
    (batchify_fn : option batchify) (num_workers : nat) :
  ((∃ msg, __init__ iter_leaf dataset batch_size shuffle sampler last_batch
             batch_sampler batchify_fn num_workers = Raise (ValueError msg))
   ↔ conflict batch_size shuffle sampler last_batch batch_sampler)
  ∧ ((∃ self, __init__ iter_leaf dataset batch_size shuffle sampler last_batch
                batch_sampler batchify_fn num_workers = Ok self)
     ↔ ¬ conflict batch_size shuffle sampler last_batch batch_sampler).
Proof.
  unfold conflict, __init__.
  destruct batch_sampler as [bs|], batch_size as [b|], sampler as [s|],
    last_batch as [lb|], shuffle; cbn;
    (split; split;
     [ intros [msg Hmsg]; first [ discriminate Hmsg | has_conflict ]
     | first [ by eexists | no_conflict ]
     | intros [self Hself]; first [ discriminate Hself | no_conflict ]
     | first [ by eexists | intros Hc; exfalso; apply Hc; has_conflict ] ]).
Qed.

End InitFacts.

(** ** The batch sampler *)

Lemma fill_batches_concat (batch_size : nat) (indices batch : list nat) :
  concat (fill_batches batch_size batch indices).1
    ++ (fill_batches batch_size batch indices).2
  = batch ++ indices.
Proof.
  revert batch. induction indices as [|i indices IH]; intros batch.
  - by rewrite app_nil_r.
  - cbn [fill_batches]. case_bool_decide.
    + specialize (IH []). destruct (fill_batches batch_size [] indices).
      cbn in *. rewrite <-!app_assoc, IH. done.
    + rewrite IH, <-app_assoc. done.
Qed.

Lemma fill_batches_sizes (batch_size : nat) (indices batch : list nat) :
  length batch < batch_size →
  Forall (λ b, length b = batch_size) (fill_batches batch_size batch indices).1
  ∧ length (fill_batches batch_size batch indices).2 < batch_size.
Proof.
  revert batch. induction indices as [|i indices IH]; intros batch Hlt.
  - by split.
  - cbn [fill_batches]. case_bool_decide as Hfull.
    + destruct (IH []) as [IH1 IH2]; [cbn; lia|].
      destruct (fill_batches batch_size [] indices). cbn in *.
      split; [by constructor | done].
    + apply IH. rewrite length_app in *. cbn in *. lia.
Qed.

Lemma sum_list_uniform (batch_size : nat) (full : list (list nat)) :
  Forall (λ b, length b = batch_size) full →
  length (concat full) = length full * batch_size.
Proof.
  induction 1 as [|b full Hb _ IH]; [done|].
  cbn. rewrite length_app, IH, Hb. done.
Qed.

Section InitSamplerFacts.

Variable iter_leaf : Sample → result (list Sample).
Variable shuffled : nat → list nat.

(** C9: without [batch_sampler] and without [last_batch] the constructor
    builds its batch sampler with the policy [keep]; when the number of
    indices is not a multiple of the batch size, a pass over that sampler
    ends with the partial batch of the remaining indices, after the full
    batches: nothing is dropped and nothing is kept for the next pass. *)
Theorem default_last_batch_is_keep (dataset : Dataset) (batch_size : nat)
    (shuffle : bool) (sampler : option Sampler)
    (batchify_fn : option batchify) (num_workers : nat) :
  0 < batch_size →
  ¬ (shuffle = true ∧ sampler ≠ None) →
  ∃ self,
    __init__ iter_leaf dataset (Some batch_size) shuffle sampler None None
      batchify_fn num_workers = Ok self
    ∧ bs_last_batch (_batch_sampler self) = keep
    ∧ bs_batch_size (_batch_sampler self) = batch_size
    ∧ let indices := sampler_iter shuffled (bs_sampler (_batch_sampler self)) in
      let n := length indices in
      n mod batch_size ≠ 0 →
      ∃ full,
        (bs_iter shuffled (_batch_sampler self)).1
          = full ++ [drop (n - n mod batch_size) indices]
        ∧ Forall (λ b, length b = batch_size) full
        ∧ concat full = take (n - n mod batch_size) indices
        ∧ bs_prev (bs_iter shuffled (_batch_sampler self)).2 = [].
Proof.
  intros Hpos Hok.
  set (s := match sampler with
            | Some s => s
            | None => if shuffle then RandomSampler (ds_len dataset)
                      else SequentialSampler (ds_len dataset)
            end).
  exists (mkDataLoader dataset (mkBatchSampler s batch_size keep []) num_workers
            (match batchify_fn with
             | None =>
                 if bool_decide (0 < num_workers)
                 then default_mp_batchify_fn iter_leaf
                 else default_batchify_fn iter_leaf
             | Some f => f
             end)).
  split.
  { unfold __init__, s. destruct sampler, shuffle; try done.
    exfalso. apply Hok. done. }
  do 2 (split; [done|]). cbn [_batch_sampler bs_sampler].
  set (indices := sampler_iter shuffled s). set (n := length indices).
  intros Hrem. unfold bs_iter.
  cbn [bs_batch_size bs_prev bs_sampler bs_last_batch]. fold indices.
  pose proof (fill_batches_concat batch_size indices []) as Hcat.
  destruct (fill_batches_sizes batch_size indices []) as [Hfull Hrest]; [cbn; lia|].
  destruct (fill_batches batch_size [] indices) as [full rest]. cbn in *.
  assert (n = length full * batch_size + length rest) as Hn.
  { unfold n. rewrite <-Hcat, length_app, (sum_list_uniform batch_size) by done. done. }
  assert (n mod batch_size = length rest) as Hmod.
  { rewrite Hn, Nat.add_comm, Nat.Div0.mod_add. by apply Nat.mod_small. }
  assert (n - n mod batch_size = length (concat full)) as Hcut.
  { rewrite (sum_list_uniform batch_size) by done. lia. }
  destruct rest as [|i rest]; [cbn in *; lia|].
  exists full. cbn. rewrite Hcut, <-Hcat.
  rewrite drop_app_length, take_app_length. done.
Qed.

End InitSamplerFacts.

(** ** The worker *)

Lemma fetch_in_order (dataset : Dataset) (samples : list nat) (data : list Sample) :
  fetch dataset samples = Ok data
  ↔ Forall2 (λ i s, ds_getitem dataset i = Ok s) samples data.
Proof.
  unfold fetch. revert data. induction samples as [|i samples IH]; intros data.
  - split; [by intros [= <-]; constructor | by inversion 1].
  - cbn [mapR]. split.
    + destruct (ds_getitem dataset i) as [e|s] eqn:Hs; [done|]. cbn.
      destruct (mapR (ds_getitem dataset) samples) as [e|ss] eqn:Hss; [done|].
      intros [= <-]. constructor; [done|]. by apply IH.
    + inversion 1 as [|? s ? ss Hs Hss]; subst. rewrite Hs. cbn.
      apply IH in Hss. by rewrite Hss.
Qed.

(** A worker that has left its loop takes no step: it touches neither
    queue again. *)
Lemma exited_worker_is_silent (w : nat) (s : system) :
  workers s !! w = Some Exited → worker_step w s = None.
Proof. unfold worker_step. by intros ->. Qed.

(** C5: a worker that gets a sentinel job returns at once, leaving both
    queues as they are after the [get]; a worker that gets a job with a
    ticket fetches the samples at the job's indices in index order, collates
    them with the batchify function, puts the batch on the result queue
    under the job's ticket, and goes on with the next job. *)
Theorem worker_loop_iteration (dataset : Dataset) (batchify_fn : batchify)
    (kq : list Job) (dq : list Result)
    (idx : nat) (samples : list nat) (data : list Sample) (batch : Batch) :
  Forall2 (λ i s, ds_getitem dataset i = Ok s) samples data →
  batchify_fn data = Ok batch →
  has_room dq = true →
  (∀ x, worker_loop dataset ((None, x) :: kq) dq batchify_fn
        = (Returned, kq, dq))
  ∧ worker_loop dataset ((Some idx, Some samples) :: kq) dq batchify_fn
    = worker_loop dataset kq (dq ++ [(idx, batch)]) batchify_fn
  ∧ (∀ s w, workers s !! w = Some Idle →
       (∀ x, key_queue s = (None, x) :: kq →
          ∃ s', worker_step w s = Some s'
            ∧ workers s' !! w = Some Exited
            ∧ key_queue s' = kq
            ∧ data_queue s' = data_queue s
            ∧ worker_step w s' = None)).
Proof.
  intros Hdata Hbatch Hroom. apply fetch_in_order in Hdata.
  split; [done|]. split.
  - cbn [worker_loop worker_body]. rewrite Hdata. cbn. by rewrite Hbatch, Hroom.
  - intros s w Hw x Hkq. unfold worker_step at 1. rewrite Hw, Hkq. cbn.
    eexists. split; [done|]. cbn.
    assert (w < length (workers s)) by (by eapply lookup_lt_Some).
    rewrite list_lookup_insert_eq by done. do 3 (split; [done|]).
    apply exited_worker_is_silent. cbn. by rewrite list_lookup_insert_eq.
Qed.

(** ** The reorder buffer *)

(** The [while] loop yields the entries at [curr_idx], [curr_idx + 1], ... up
    to the first ticket the buffer lacks, and removes exactly those; with
    the size of the buffer as fuel it always reaches that ticket. *)
Lemma flush_spec (fuel : nat) (data_buffer : gmap nat Batch) (curr_idx : nat)
    (ys : list Batch) (data_buffer' : gmap nat Batch) (curr_idx' : nat) :
  size data_buffer ≤ fuel →
  flush fuel data_buffer curr_idx = (ys, data_buffer', curr_idx') →
  curr_idx' = curr_idx + length ys
  ∧ (∀ k, k < length ys → data_buffer !! (curr_idx + k) = ys !! k)
  ∧ data_buffer' !! curr_idx' = None
  ∧ (∀ i, data_buffer' !! i
          = if decide (curr_idx ≤ i < curr_idx') then None else data_buffer !! i).
Proof.
  revert data_buffer curr_idx ys data_buffer' curr_idx'.
  induction fuel as [|fuel IH]; intros buf cur ys buf' cur' Hsize.
  - assert (buf = ∅) as -> by (apply map_size_empty_inv; lia).
    cbn. intros [= <- <- <-]. cbn. split; [lia|]. split; [intros; lia|].
    split; [done|]. intros i. by case_decide.
  - cbn [flush]. destruct (buf !! cur) as [b|] eqn:Hb.
    + destruct (flush fuel (delete cur buf) (S cur)) as [[ys0 buf0] cur0] eqn:Hrec.
      intros [= <- <- <-]. apply IH in Hrec as (-> & Hys & Hnone & Hrest).
      2:{ rewrite map_size_delete, Hb. lia. }
      cbn [length]. split; [lia|]. split; [|split; [done|]].
      * intros [|k] Hk; [by rewrite Nat.add_0_r|].
        cbn. rewrite <-Hys by (cbn in Hk; lia).
        replace (cur + S k) with (S cur + k) by lia.
        by rewrite lookup_delete_ne by lia.
      * intros i. rewrite Hrest.
        destruct (decide (i = cur)) as [->|Hne].
        -- rewrite lookup_delete_eq. repeat case_decide; done || lia.
        -- rewrite lookup_delete_ne by done. repeat case_decide; done || lia.
    + intros [= <- <- <-]. cbn. split; [lia|]. split; [intros; lia|].
      split; [done|]. intros i. case_decide; [lia|done].
Qed.

Lemma receive_keeps_inv (batches : list Batch) (seen : list Result)
    (r : Result) (data_buffer : gmap nat Batch) (curr_idx : nat)
    (ys : list Batch) (data_buffer' : gmap nat Batch) (curr_idx' : nat) :
  batches !! r.1 = Some r.2 →
  reorder_inv batches seen data_buffer curr_idx →
  receive r data_buffer curr_idx = (ys, data_buffer', curr_idx') →
  curr_idx' = curr_idx + length ys
  ∧ ys = take (length ys) (drop curr_idx batches)
  ∧ reorder_inv batches (r :: seen) data_buffer' curr_idx'.
Proof.
  destruct r as [idx batch]. cbn [fst snd].
  intros Hr (Hle & Hcur & Hbuf & Hseen) Hrecv. unfold receive in Hrecv.
  apply flush_spec in Hrecv as (-> & Hys & Hnone & Hrest); [|done].
  assert (∀ i b, <[idx:=batch]> data_buffer !! i = Some b → batches !! i = Some b)
    as Hbuf1.
  { intros i b. destruct (decide (idx = i)) as [->|Hne].
    - rewrite lookup_insert_eq. by intros [= <-].
    - rewrite lookup_insert_ne by done. apply Hbuf. }
  assert (∀ k, k < length ys → batches !! (curr_idx + k) = ys !! k) as Hys'.
  { intros k Hk. destruct (ys !! k) as [y|] eqn:Hy.
    - apply Hbuf1. by rewrite Hys.
    - apply lookup_ge_None in Hy. lia. }
  split; [done|]. split; [|split; [|split; [done|split]]].
  - apply list_eq. intros k. destruct (decide (k < length ys)) as [Hk|Hk].
    + by rewrite lookup_take_lt, lookup_drop, Hys'.
    + rewrite lookup_take_ge by lia. apply lookup_ge_None. lia.
  - destruct ys as [|y ys _] using rev_ind; [cbn; lia|].
    rewrite length_app in *. cbn in *.
    assert (is_Some (batches !! (curr_idx + length ys))) as Hsome.
    { rewrite Hys' by lia. rewrite lookup_app_r, Nat.sub_diag by done. by eexists. }
    apply lookup_lt_is_Some in Hsome. lia.
  - intros i b. rewrite Hrest. case_decide; [done|]. apply Hbuf1.
  - intros i b [Heq|Hin]%elem_of_cons.
    + injection Heq as -> ->. rewrite Hrest.
      case_decide; [lia|]. right. by rewrite lookup_insert_eq.
    + rewrite Hrest. case_decide; [lia|].
      destruct (Hseen i b Hin) as [Hlt|Hib]; [lia|]. right.
      destruct (decide (idx = i)) as [->|Hne].
      * rewrite lookup_insert_eq. apply Hbuf in Hib. congruence.
      * by rewrite lookup_insert_ne.
Qed.

Lemma drain_loop_spec (batches : list Batch) (total : nat)
    (arrivals : list Result) (seen : list Result)
    (data_buffer : gmap nat Batch) (curr_idx : nat) :
  Forall (λ r, batches !! r.1 = Some r.2) arrivals →
  reorder_inv batches seen data_buffer curr_idx →
  ∃ n data_buffer',
    (drain_loop total arrivals data_buffer curr_idx).1
      = take n (drop curr_idx batches)
    ∧ (drain_loop total arrivals data_buffer curr_idx).2
      = bool_decide (total ≤ length arrivals)
    ∧ reorder_inv batches (reverse (take total arrivals) ++ seen)
        data_buffer' (curr_idx + n).
Proof.
  revert arrivals seen data_buffer curr_idx.
  induction total as [|total IH]; intros arrivals seen buf cur Harr Hinv.
  - exists 0, buf. rewrite Nat.add_0_r. split; [done|]. split; [|done].
    cbn. symmetry. apply bool_decide_eq_true. lia.
  - destruct arrivals as [|r arrivals].
    + exists 0, buf. rewrite Nat.add_0_r. split; [done|]. split; [|done].
      cbn. symmetry. apply bool_decide_eq_false. lia.
    + inversion Harr as [|?? Hr Harr']; subst.
      cbn [drain_loop].
      destruct (receive r buf cur) as [[ys buf1] cur1] eqn:Hrecv.
      destruct (receive_keeps_inv _ _ _ _ _ _ _ _ Hr Hinv Hrecv)
        as (-> & Hys & Hinv1).
      destruct (IH arrivals (r :: seen) buf1 (cur + length ys) Harr' Hinv1)
        as (n & buf' & Hout & Hfin & Hinv').
      destruct (drain_loop total arrivals buf1 (cur + length ys)) as [rest fin].
      cbn [fst snd] in *. exists (length ys + n), buf'.
      split; [|split].
      * rewrite Hys at 1. rewrite Hout.
        rewrite <-(drop_drop batches (length ys) cur).
        apply take_take_drop.
      * rewrite Hfin. cbn [length]. apply bool_decide_ext. lia.
      * rewrite Nat.add_assoc. cbn [take]. rewrite reverse_cons, <-app_assoc.
        exact Hinv'.
Qed.

(** C1: whatever the order in which the results of a pass arrive, the
    draining loop yields the batches in ticket order 0, 1, 2, ...: after any
    number of arrivals what has been yielded is an initial part of the
    batches in sampler order, and once all have arrived it is all of them.
    On each arrival the result is stored under its ticket; then the entries
    at [curr_idx], [curr_idx + 1], ... are yielded and removed up to the
    first ticket that is missing, where the counter stops. *)
Theorem reorder_restores_order (batches : list Batch) (arrivals : list Result) :
  arrivals ≡ₚ ticketed batches →
  drain_loop (length batches) arrivals ∅ 0 = (batches, true)
  ∧ (∀ total, ∃ n, (drain_loop total arrivals ∅ 0).1 = take n batches)
  ∧ (∀ idx batch data_buffer curr_idx ys data_buffer' curr_idx',
       receive (idx, batch) data_buffer curr_idx = (ys, data_buffer', curr_idx') →
       curr_idx' = curr_idx + length ys
       ∧ (∀ k, k < length ys →
            <[idx := batch]> data_buffer !! (curr_idx + k) = ys !! k)
       ∧ data_buffer' !! curr_idx' = None
       ∧ (∀ i, data_buffer' !! i
               = if decide (curr_idx ≤ i < curr_idx') then None
                 else <[idx := batch]> data_buffer !! i)).
Proof.
  intros Hperm.
  assert (Forall (λ r, batches !! r.1 = Some r.2) arrivals) as Harr.
  { apply Forall_forall. intros [i b] Hin. rewrite Hperm in Hin.
    apply elem_of_lookup_imap in Hin as (j & y & Heq & Hj).
    by injection Heq as -> ->. }
  assert (reorder_inv batches [] ∅ 0) as Hinv0.
  { split; [lia|]. split; [done|]. split.
    - intros i b. by rewrite lookup_empty.
    - by intros ?? ?%elem_of_nil. }
  assert (length arrivals = length batches) as Hlen.
  { rewrite Hperm. apply length_imap. }
  split; [|split].
  - destruct (drain_loop_spec batches (length batches) arrivals [] ∅ 0 Harr Hinv0)
      as (n & buf' & Hout & Hfin & (Hle & Hnone & _ & Hseen)).
    destruct (drain_loop (length batches) arrivals ∅ 0) as [out fin].
    cbn [fst snd] in *. rewrite drop_0 in Hout. cbn in Hle, Hnone, Hseen.
    assert (n = length batches) as ->.
    { destruct (decide (n < length batches)) as [Hlt|]; [|lia]. exfalso.
      destruct (lookup_lt_is_Some_2 batches n Hlt) as [b Hb].
      destruct (Hseen n b) as [?|Hin]; [|lia|congruence].
      rewrite app_nil_r, elem_of_reverse, <-Hlen, firstn_all, Hperm.
      by apply (elem_of_lookup_imap_2 (λ idx batch, (idx, batch))). }
    rewrite firstn_all in Hout. f_equal; [done|].
    rewrite Hfin. apply bool_decide_eq_true. lia.
  - intros total.
    destruct (drain_loop_spec batches total arrivals [] ∅ 0 Harr Hinv0)
      as (n & buf' & Hout & _). exists n. by rewrite Hout, drop_0.
  - intros idx batch buf cur ys buf' cur' Hrecv.
    by eapply flush_spec; [|exact Hrecv].
Qed.

(** ** The parallel pass *)

Section ParallelFacts.

Variable shuffled : nat → list nat.
Variable self : DataLoader.

Let batches : list (list nat) := (bs_iter shuffled (_batch_sampler self)).1.
Let sampler' : BatchSampler := (bs_iter shuffled (_batch_sampler self)).2.
Let total : nat := bs_len shuffled sampler'.
Let n : nat := _num_workers self.

Lemma start_eq :
  start shuffled self
  = mkSystem (with_sampler self sampler') [] [] (replicate n Idle)
      (Enqueue (jobs_of batches)) [] [].
Proof.
  unfold start, batches, sampler', n.
  by destruct (bs_iter shuffled (_batch_sampler self)).
Qed.

Lemma step_loader (a : actor) (s s' : system) :
  step shuffled a s = Some s' → loader s' = loader s.
Proof.
  destruct a as [|w]; cbn.
  - unfold main_step. intros Hstep.
    repeat (case_match; simplify_eq/=); done.
  - unfold worker_step. intros Hstep.
    repeat (case_match; simplify_eq/=); done.
Qed.

Lemma run_loader (schedule : list actor) (s s' : system) :
  run shuffled schedule s = Some s' → loader s' = loader s.
Proof.
  revert s. induction schedule as [|a schedule IH]; intros s; cbn.
  - by intros [= ->].
  - destruct (step shuffled a s) as [s1|] eqn:Hstep; [|done].
    intros Hrun. rewrite (IH _ Hrun). by eapply step_loader.
Qed.

(** Both queues stay within their capacity. *)
Lemma step_bounded (a : actor) (s s' : system) :
  step shuffled a s = Some s' →
  (Z.of_nat (length (key_queue s)) ≤ maxsize)%Z
  ∧ (Z.of_nat (length (data_queue s)) ≤ maxsize)%Z →
  (Z.of_nat (length (key_queue s')) ≤ maxsize)%Z
  ∧ (Z.of_nat (length (data_queue s')) ≤ maxsize)%Z.
Proof.
  intros Hstep [Hk Hd]. destruct a as [|w]; cbn in Hstep.
  - unfold main_step, has_room in Hstep.
    repeat (case_match; simplify_eq/=); try case_bool_decide; simplify_eq/=;
      rewrite ?length_app; cbn; try (split; lia).
  - unfold worker_step, has_room in Hstep.
    repeat (case_match; simplify_eq/=); try case_bool_decide; simplify_eq/=;
      rewrite ?length_app; cbn; try (split; lia).
Qed.

Lemma received_app (l1 l2 : list event) :
  received (l1 ++ l2) = received l1 ++ received l2.
Proof. apply omap_app. Qed.

Lemma received_puts (jobs : list Job) : received (Put <$> jobs) = [].
Proof. induction jobs; done. Qed.

Lemma received_yields (ys : list Batch) : received (Yield <$> ys) = [].
Proof. induction ys; done. Qed.

Lemma received_joins (ws : list nat) : received (Joined <$> ws) = [].
Proof. induction ws; done. Qed.

Lemma received_replicate_put (k : nat) (job : Job) :
  received (replicate k (Put job)) = [].
Proof. induction k; done. Qed.

Lemma draining_receive (r : Result) (ys : list Batch) :
  draining (Get r :: (Yield <$> ys)).
Proof.
  constructor; [done|]. apply Forall_fmap, Forall_forall. done.
Qed.

Lemma worker_step_shape (w : nat) (s s' : system) :
  worker_step w s = Some s' →
  ∃ st st',
    workers s !! w = Some st ∧ terminated st = false
    ∧ workers s' = <[w := st']> (workers s)
    ∧ main s' = main s ∧ log s' = log s ∧ output s' = output s.
Proof.
  unfold worker_step. intros Hstep.
  destruct (workers s !! w) as [[|r| |e]|] eqn:Hw; try done.
  - destruct (key_queue s) as [|job kq]; [done|]. injection Hstep as <-.
    by eexists Idle, _.
  - destruct (has_room (data_queue s)); [|done]. injection Hstep as <-.
    by eexists (Holding r), _.
Qed.

Lemma step_protocol (a : actor) (s s' : system) :
  __len__ shuffled (loader s) = total →
  _num_workers (loader s) = n →
  protocol_inv (jobs_of batches) total n s →
  step shuffled a s = Some s' →
  protocol_inv (jobs_of batches) total n s'.
Proof.
  intros Hlen Hn [Hws Hinv] Hstep. destruct a as [|w]; cbn in Hstep.
  - unfold main_step in Hstep.
    destruct (main s) as [[|job todo]|[|rem] buf cur|[|rem]|next|] eqn:Hmain.
    + injection Hstep as <-. split; [done|]. cbn -[seq replicate].
      destruct Hinv as (sent & -> & Hlog). rewrite app_nil_r.
      exists []. rewrite app_nil_r. split; [done|]. split; [constructor|].
      by rewrite Hlen.
    + destruct (has_room (key_queue s)); [|done]. injection Hstep as <-.
      split; [done|]. cbn -[seq replicate]. destruct Hinv as (sent & -> & Hlog).
      exists (sent ++ [job]). rewrite <-app_assoc. split; [done|].
      by rewrite Hlog, fmap_app.
    + injection Hstep as <-. split; [done|]. cbn -[seq replicate]. rewrite Hn.
      destruct Hinv as (mid & Hlog & Hmid & Hrecv). exists mid.
      rewrite Nat.sub_diag, app_nil_r. repeat split; [done..|lia|lia].
    + destruct (data_queue s) as [|r dq]; [done|].
      destruct (receive r buf cur) as [[ys buf'] cur'].
      injection Hstep as <-. split; [done|]. cbn -[seq replicate].
      destruct Hinv as (mid & Hlog & Hmid & Hrecv).
      exists (mid ++ Get r :: (Yield <$> ys)).
      split; [by rewrite Hlog, <-app_assoc|]. split.
      * apply Forall_app. split; [done|]. apply draining_receive.
      * rewrite received_app. cbn -[seq replicate]. rewrite received_yields, length_app.
        cbn -[seq replicate]. lia.
    + injection Hstep as <-. split; [done|]. cbn -[seq replicate].
      destruct Hinv as (mid & Hlog & Hmid & Hrecv & Hle). exists mid.
      rewrite Nat.sub_0_r in Hlog. rewrite app_nil_r.
      repeat split; [done..|lia|]. intros; lia.
    + destruct (has_room (key_queue s)); [|done]. injection Hstep as <-.
      split; [done|]. cbn -[seq replicate].
      destruct Hinv as (mid & Hlog & Hmid & Hrecv & Hle). exists mid.
      split; [|repeat split; [done..|lia]].
      rewrite Hlog, <-!app_assoc. do 2 f_equal.
      replace (n - rem) with (S (n - S rem)) by lia.
      by rewrite replicate_S_end.
    + destruct Hinv as (mid & Hlog & Hmid & Hrecv & Hle & Hterm).
      destruct (workers s !! next) as [st|] eqn:Hnext.
      * destruct (terminated st) eqn:Hst; [|done]. injection Hstep as <-.
        apply lookup_lt_Some in Hnext as Hlt.
        split; [done|]. cbn -[seq replicate]. exists mid.
        split; [|repeat split; [done..|lia|]].
        -- rewrite Hlog, <-!app_assoc. do 3 f_equal.
           by rewrite seq_S, fmap_app.
        -- intros w st' Hw Hst'.
           destruct (decide (w = next)) as [->|]; [congruence|].
           eapply Hterm; [|done]. lia.
      * injection Hstep as <-. apply lookup_ge_None in Hnext.
        assert (next = n) as -> by lia.
        split; [done|]. cbn -[seq replicate]. exists mid. repeat split; [done..|].
        apply Forall_lookup. intros w st Hst.
        eapply Hterm; [|done]. apply lookup_lt_Some in Hst. lia.
    + done.
  - apply worker_step_shape in Hstep
      as (st & st' & Hw & Hst & Hws' & Hmain & Hlog & _).
    split; [by rewrite Hws', length_insert|].
    rewrite Hmain, Hlog.
    destruct (main s) as [todo|rem buf cur|rem|next|]; try done.
    + destruct Hinv as (mid & ? & ? & ? & ? & Hterm). exists mid.
      repeat split; [done..|]. intros w' st'' Hlt. rewrite Hws'.
      destruct (decide (w = w')) as [->|Hne].
      * specialize (Hterm _ _ Hlt Hw). congruence.
      * rewrite list_lookup_insert_ne by done. by apply Hterm.
    + destruct Hinv as (mid & ? & ? & ? & Hterm).
      rewrite Forall_lookup in Hterm. specialize (Hterm _ _ Hw). congruence.
Qed.

Lemma run_protocol (schedule : list actor) (s s' : system) :
  __len__ shuffled (loader s) = total →
  _num_workers (loader s) = n →
  protocol_inv (jobs_of batches) total n s →
  run shuffled schedule s = Some s' →
  protocol_inv (jobs_of batches) total n s'.
Proof.
  revert s. induction schedule as [|a schedule IH]; intros s Hlen Hn Hinv; cbn.
  - by intros [= <-].
  - destruct (step shuffled a s) as [s1|] eqn:Hstep; [|done].
    apply IH.
    + by rewrite (step_loader _ _ _ Hstep).
    + by rewrite (step_loader _ _ _ Hstep).
    + by eapply step_protocol.
Qed.

Lemma run_bounded (schedule : list actor) (s s' : system) :
  run shuffled schedule s = Some s' →
  (Z.of_nat (length (key_queue s)) ≤ maxsize)%Z
  ∧ (Z.of_nat (length (data_queue s)) ≤ maxsize)%Z →
  (Z.of_nat (length (key_queue s')) ≤ maxsize)%Z
  ∧ (Z.of_nat (length (data_queue s')) ≤ maxsize)%Z.
Proof.
  revert s. induction schedule as [|a schedule IH]; intros s; cbn.
  - by intros [= <-].
  - destruct (step shuffled a s) as [s1|] eqn:Hstep; [|done].
    intros Hrun Hb. apply (IH _ Hrun). by eapply step_bounded.
Qed.

Lemma held_middle (l1 l2 : list worker_state) (st : worker_state) :
  held (l1 ++ st :: l2) ≡ₚ held [st] ++ held (l1 ++ l2).
Proof.
  unfold held. rewrite !omap_app.
  change (st :: l2) with ([st] ++ l2). rewrite omap_app.
  rewrite !app_assoc. f_equiv. apply Permutation_app_comm.
Qed.

Lemma held_insert (ws : list worker_state) (w : nat) (old new : worker_state) :
  ws !! w = Some old →
  held (<[w := new]> ws) ++ held [old] ≡ₚ held [new] ++ held ws.
Proof.
  intros Hw. rewrite insert_take_drop by (by eapply lookup_lt_Some).
  rewrite <-(take_drop_middle ws w old Hw) at 3.
  rewrite !held_middle, <-app_assoc. f_equiv.
  apply Permutation_app_comm.
Qed.

Lemma held_insert_tickets (ws : list worker_state) (w : nat)
    (old new : worker_state) :
  ws !! w = Some old →
  list_to_set_disj (held (<[w := new]> ws)).*1 ⊎ list_to_set_disj (held [old]).*1
  =@{gmultiset nat}
  list_to_set_disj (held [new]).*1 ⊎ list_to_set_disj (held ws).*1.
Proof.
  intros Hw. rewrite <-!list_to_set_disj_app, <-!fmap_app.
  by rewrite (held_insert ws w old new Hw).
Qed.

Lemma tickets_cons (job : Job) (jobs : list Job) :
  tickets (job :: jobs)
  = match job.1 with Some idx => idx :: tickets jobs | None => tickets jobs end.
Proof. by destruct job as [[idx|] samples]. Qed.

Lemma tickets_snoc (jobs : list Job) (job : Job) :
  tickets (jobs ++ [job])
  = tickets jobs ++ match job.1 with Some idx => [idx] | None => [] end.
Proof. unfold tickets. rewrite omap_app. by destruct job as [[idx|] samples]. Qed.

Lemma received_snoc_get (l : list event) (r : Result) (ys : list Batch) :
  received (l ++ Get r :: (Yield <$> ys)) = received l ++ [r].
Proof.
  rewrite received_app. f_equal.
  change (Get r :: (Yield <$> ys)) with ([Get r] ++ (Yield <$> ys)).
  by rewrite received_app, received_yields.
Qed.

Lemma received_snoc_other (l : list event) (e : event) :
  (∀ r, e ≠ Get r) → received (l ++ [e]) = received l.
Proof.
  intros He. rewrite received_app.
  destruct e; cbn; rewrite ?app_nil_r; try done. by destruct (He r).
Qed.

Lemma held_singleton (st : worker_state) :
  held [st] = match st with Holding r => [r] | _ => [] end.
Proof. by destruct st. Qed.

Local Ltac multiset_norm :=
  rewrite ?fmap_app, ?fmap_cons, ?fmap_nil, ?list_to_set_disj_app,
    ?list_to_set_disj_cons, ?list_to_set_disj_nil.

(** No step creates a ticket. *)
Lemma step_in_flight (a : actor) (s s' : system) :
  step shuffled a s = Some s' → in_flight s' ⊆ in_flight s.
Proof.
  intros Hstep. destruct a as [|w]; cbn in Hstep.
  - unfold main_step in Hstep. unfold in_flight, todo.
    destruct (main s) as [[|job todo]|[|rem] buf cur|[|rem]|next|] eqn:Hmain.
    + by injection Hstep as <-.
    + destruct (has_room (key_queue s)); [|done]. injection Hstep as <-.
      cbn [main key_queue workers data_queue log].
      rewrite tickets_cons, tickets_snoc, received_snoc_other by done.
      destruct (job.1); multiset_norm; multiset_solver.
    + by injection Hstep as <-.
    + destruct (data_queue s) as [|r dq]; [done|].
      destruct (receive r buf cur) as [[ys buf'] cur'].
      injection Hstep as <-.
      cbn [main key_queue workers data_queue log].
      rewrite received_snoc_get. multiset_norm. multiset_solver.
    + by injection Hstep as <-.
    + destruct (has_room (key_queue s)); [|done]. injection Hstep as <-.
      cbn [main key_queue workers data_queue log].
      rewrite tickets_snoc, received_snoc_other by done.
      cbn [fst sentinel]. by rewrite app_nil_r.
    + destruct (workers s !! next) as [st|]; [|by injection Hstep as <-].
      destruct (terminated st); [|done]. injection Hstep as <-.
      cbn [main key_queue workers data_queue log].
      by rewrite received_snoc_other.
    + done.
  - unfold worker_step in Hstep. unfold in_flight, todo.
    destruct (workers s !! w) as [[|r| |e]|] eqn:Hw; try done.
    + destruct (key_queue s) as [|job kq]; [done|]. injection Hstep as <-.
      cbn [main key_queue workers data_queue log].
      pose proof (held_insert_tickets _ w _
        (after_get (worker_body (_dataset (loader s))
                      (_batchify_fn (loader s)) job)) Hw) as Hheld.
      rewrite tickets_cons. rewrite !held_singleton in Hheld.
      destruct job as [[idx|] samples]; cbn [fst worker_body after_get] in *.
      * destruct (match samples with
                  | Some samples =>
                      fetch (_dataset (loader s)) samples
                        ≫= _batchify_fn (loader s)
                  | None => Raise TypeError
                  end) as [e|batch];
          cbn [after_get] in Hheld; revert Hheld; multiset_norm;
          cbn [fst]; multiset_solver.
      * revert Hheld; multiset_norm; multiset_solver.
    + destruct (has_room (data_queue s)); [|done]. injection Hstep as <-.
      cbn [main key_queue workers data_queue log].
      pose proof (held_insert_tickets _ w _ Idle Hw) as Hheld.
      rewrite !held_singleton in Hheld.
      revert Hheld; multiset_norm; multiset_solver.
Qed.

Lemma run_in_flight (schedule : list actor) (s s' : system) :
  run shuffled schedule s = Some s' → in_flight s' ⊆ in_flight s.
Proof.
  revert s. induction schedule as [|a schedule IH]; intros s; cbn.
  - by intros [= <-].
  - destruct (step shuffled a s) as [s1|] eqn:Hstep; [|done].
    intros Hrun. etrans; [by apply IH|]. by eapply step_in_flight.
Qed.

Lemma tickets_jobs_of (l : list (list nat)) :
  tickets (jobs_of l) = seq 0 (length l).
Proof.
  unfold jobs_of, tickets.
  change (λ idx batch, (Some idx, Some batch))
    with (λ idx (batch : list nat), (Some (0 + idx), Some batch)).
  generalize 0. induction l as [|x l IH]; intros k; [done|].
  cbn [imap length seq]. csimpl. rewrite Nat.add_0_r. f_equal.
  rewrite <-(IH (S k)). f_equal. apply imap_ext. intros i y _. cbn.
  by rewrite Nat.add_succ_r.
Qed.

Lemma size_list_to_set_disj (l : list nat) :
  size (list_to_set_disj l : gmultiset nat) = length l.
Proof.
  induction l as [|x l IH].
  - by rewrite list_to_set_disj_nil, gmultiset_size_empty.
  - rewrite list_to_set_disj_cons, gmultiset_size_disj_union,
      gmultiset_size_singleton, IH. done.
Qed.

Lemma in_flight_start : in_flight (start shuffled self)
  = list_to_set_disj (seq 0 (length batches)).
Proof.
  rewrite start_eq. unfold in_flight, todo.
  cbn [main key_queue workers data_queue log].
  rewrite tickets_jobs_of.
  replace (held (replicate n Idle)) with (@nil Result)
    by (induction n; [done|]; by cbn).
  cbn. multiset_norm. multiset_solver.
Qed.

(** The tickets the dispatcher has received are tickets of the pass, each
    at most once. *)
Lemma received_tickets (schedule : list actor) (s : system) :
  iter_parallel shuffled self schedule = Some s →
  list_to_set_disj (received (log s)).*1
  ⊆@{gmultiset nat} list_to_set_disj (seq 0 (length batches)).
Proof.
  intros Hrun. apply run_in_flight in Hrun. rewrite in_flight_start in Hrun.
  etrans; [|exact Hrun]. unfold in_flight. multiset_solver.
Qed.

(** The dispatcher never receives more results than it has sent jobs. *)
Lemma received_at_most_sent (schedule : list actor) (s : system) :
  iter_parallel shuffled self schedule = Some s →
  length (received (log s)) ≤ length batches.
Proof.
  intros Hrun%received_tickets%gmultiset_subseteq_size.
  by rewrite !size_list_to_set_disj, length_fmap, length_seq in Hrun.
Qed.

(** C4: in a pass with workers, both queues never hold more than 65535
    items, and when the pass has finished the dispatcher has done, in this
    order: put every index-list of the batch sampler on the job queue as a
    job with its position as ticket; taken exactly [len(batch_sampler)]
    results from the result queue (yielding in between); put one sentinel
    per worker; joined every worker.  Every worker has then terminated. *)
Theorem parallel_pass_protocol (schedule : list actor) (s : system) :
  0 < _num_workers self →
  iter_parallel shuffled self schedule = Some s →
  ((Z.of_nat (length (key_queue s)) ≤ 65535)%Z
   ∧ (Z.of_nat (length (data_queue s)) ≤ 65535)%Z)
  ∧ (main s = Finished →
     (∀ idx batch, batches !! idx = Some batch →
        jobs_of batches !! idx = Some (Some idx, Some batch))
     ∧ (∃ mid,
          log s = (Put <$> jobs_of batches) ++ mid
                    ++ replicate (_num_workers self) (Put sentinel)
                    ++ (Joined <$> seq 0 (_num_workers self))
          ∧ draining mid
          ∧ length (received mid) = __len__ shuffled (loader s))
     ∧ length (workers s) = _num_workers self
     ∧ Forall (λ st, terminated st = true) (workers s)).
Proof.
  intros Hpar Hrun. unfold iter_parallel in Hrun. rewrite start_eq in Hrun.
  split.
  { apply (run_bounded _ _ _ Hrun). cbn. unfold maxsize. lia. }
  intros Hfin.
  rewrite (run_loader _ _ _ Hrun). cbn [loader].
  apply run_protocol in Hrun as [Hws Hinv]; [|done|done|].
  2:{ split; [apply length_replicate|]. cbn. by exists []. }
  rewrite Hfin in Hinv. destruct Hinv as (mid & Hlog & Hmid & Hrecv & Hterm).
  split; [|split; [by exists mid|done]].
  intros idx batch Hb. unfold jobs_of. by rewrite list_lookup_imap, Hb.
Qed.

Lemma iter_sync_loop_Forall2 (l : list (list nat)) (bs : list Batch) :
  iter_sync_loop self l = (bs, None)
  ↔ Forall2 (λ samples b,
       fetch (_dataset self) samples ≫= _batchify_fn self = Ok b) l bs.
Proof.
  revert bs. induction l as [|samples l IH]; intros bs; cbn [iter_sync_loop].
  - split; [by intros [= <-]; constructor | by inversion 1].
  - destruct (fetch (_dataset self) samples ≫= _batchify_fn self)
      as [e|b] eqn:Hb.
    + split; [done|].
      inversion 1 as [|? b ? ? Hb']; subst. by rewrite Hb in Hb'.
    + destruct (iter_sync_loop self l) as [bs' e] eqn:Hrec. split.
      * intros [= <- ->]. constructor; [exact Hb|]. by apply IH.
      * inversion 1 as [|? b' ? bs'' Hb' Hrest]; subst.
        rewrite Hb in Hb'. injection Hb' as <-.
        apply IH in Hrest. by injection Hrest as <- <-.
Qed.

Lemma reorder_inv_mono (bs : list Batch) (seen seen' : list Result)
    (data_buffer : gmap nat Batch) (curr_idx : nat) :
  seen' ⊆ seen →
  reorder_inv bs seen data_buffer curr_idx →
  reorder_inv bs seen' data_buffer curr_idx.
Proof.
  intros Hsub (? & ? & ? & Hseen). repeat split; [done..|].
  intros i b Hin. apply Hseen, Hsub, Hin.
Qed.

Section Data.

(** The batches of the pass, collated one by one in sampler order. *)
Variable bs : list Batch.
Hypothesis sync_batches : iter_sync_loop self batches = (bs, None).

Lemma worker_body_valid (job : Job) :
  valid_job batches job →
  match worker_body (_dataset self) (_batchify_fn self) job with
  | WBreak => job.1 = None
  | WPut r => job.1 = Some r.1 ∧ bs !! r.1 = Some r.2
  | WRaise _ => False
  end.
Proof.
  destruct job as [[idx|] [samples|]]; try done. cbn. intros Hjob.
  apply iter_sync_loop_Forall2 in sync_batches.
  destruct (Forall2_lookup_l _ _ _ _ _ sync_batches Hjob) as (b & Hb & Hcomp).
  change (fetch (_dataset self) samples ≫= λ data, _batchify_fn self data)
    with (fetch (_dataset self) samples ≫= _batchify_fn self).
  by rewrite Hcomp.
Qed.

Lemma step_data (a : actor) (s s' : system) :
  _dataset (loader s) = _dataset self →
  _batchify_fn (loader s) = _batchify_fn self →
  data_inv batches bs s →
  step shuffled a s = Some s' →
  data_inv batches bs s'.
Proof.
  intros Hds Hfn (Hjobs & Hres & Hmain) Hstep. destruct a as [|w]; cbn in Hstep.
  - unfold main_step in Hstep. unfold data_inv, todo in *.
    destruct (main s) as [[|job todo]|[|rem] buf cur|[|rem]|next|] eqn:Hm.
    + injection Hstep as <-. cbn [main key_queue workers data_queue log output].
      destruct Hmain as [Hout Hrecv]. rewrite Hrecv, Hout in *.
      repeat split; try done; try lia.
      by intros i b ?%elem_of_nil.
    + destruct (has_room (key_queue s)); [|done]. injection Hstep as <-.
      cbn [main key_queue workers data_queue log output].
      rewrite received_snoc_other by done. split; [|done].
      revert Hjobs. rewrite !Forall_app, !Forall_cons, Forall_nil. tauto.
    + injection Hstep as <-. cbn [main key_queue workers data_queue log output].
      repeat split; try done. by exists buf, cur.
    + destruct (data_queue s) as [|r dq]; [done|].
      destruct (receive r buf cur) as [[ys buf'] cur'] eqn:Hrecv.
      injection Hstep as <-.
      cbn [main key_queue workers data_queue log output].
      rewrite received_snoc_get. destruct Hmain as [Hinv Hout].
      assert (bs !! r.1 = Some r.2) as Hr.
      { revert Hres. rewrite !Forall_app, Forall_cons. tauto. }
      destruct (receive_keeps_inv _ _ _ _ _ _ _ _ Hr Hinv Hrecv)
        as (-> & Hys & Hinv').
      split; [done|]. split; [|split].
      * revert Hres. rewrite !Forall_app, !Forall_cons, Forall_nil. tauto.
      * eapply reorder_inv_mono; [|exact Hinv'].
        intros x [Hx|Hx]%elem_of_app; apply elem_of_cons; [by right|].
        left. by apply list_elem_of_singleton.
      * rewrite Hout, Hys at 1. apply take_take_drop.
    + injection Hstep as <-. by cbn.
    + destruct (has_room (key_queue s)); [|done]. injection Hstep as <-.
      cbn [main key_queue workers data_queue log output].
      rewrite received_snoc_other by done. split; [|done].
      revert Hjobs. cbn [app]. rewrite !Forall_app, !Forall_cons, Forall_nil.
      cbn. tauto.
    + destruct (workers s !! next) as [st|]; [|by injection Hstep as <-].
      destruct (terminated st); [|done]. injection Hstep as <-.
      cbn [main key_queue workers data_queue log output].
      by rewrite received_snoc_other.
    + done.
  - unfold worker_step in Hstep. unfold data_inv, todo in *.
    destruct (workers s !! w) as [[|r| |e]|] eqn:Hw; try done.
    + destruct (key_queue s) as [|job kq]; [done|]. injection Hstep as <-.
      cbn [main key_queue workers data_queue log output].
      rewrite Hds, Hfn.
      assert (valid_job batches job) as Hjob.
      { revert Hjobs. rewrite Forall_app, Forall_cons. tauto. }
      apply worker_body_valid in Hjob.
      pose proof (held_insert _ w _
        (after_get (worker_body (_dataset self) (_batchify_fn self) job)) Hw)
        as Hheld.
      rewrite !held_singleton, app_nil_r in Hheld.
      split; [|split; [|done]].
      * revert Hjobs. rewrite !Forall_app, !Forall_cons. tauto.
      * rewrite Forall_app. rewrite Forall_app in Hres. split; [|tauto].
        rewrite Hheld. rewrite Forall_app. split; [|tauto].
        destruct (worker_body (_dataset self) (_batchify_fn self) job);
          cbn; [done| |done]. constructor; [tauto|done].
    + destruct (has_room (data_queue s)); [|done]. injection Hstep as <-.
      cbn [main key_queue workers data_queue log output].
      pose proof (held_insert _ w _ Idle Hw) as Hheld.
      rewrite !held_singleton in Hheld. cbn [app] in Hheld.
      split; [done|]. split; [|done].
      rewrite <-Hheld in Hres.
      revert Hres. rewrite !Forall_app, !Forall_cons, Forall_nil. tauto.
Qed.

Lemma run_data (schedule : list actor) (s s' : system) :
  _dataset (loader s) = _dataset self →
  _batchify_fn (loader s) = _batchify_fn self →
  data_inv batches bs s →
  run shuffled schedule s = Some s' →
  data_inv batches bs s'.
Proof.
  revert s. induction schedule as [|a schedule IH]; intros s Hds Hfn Hinv; cbn.
  - by intros [= <-].
  - destruct (step shuffled a s) as [s1|] eqn:Hstep; [|done].
    apply IH.
    + by rewrite (step_loader _ _ _ Hstep).
    + by rewrite (step_loader _ _ _ Hstep).
    + by eapply step_data.
Qed.

Lemma data_inv_start : data_inv batches bs (start shuffled self).
Proof.
  rewrite start_eq. unfold data_inv, todo.
  cbn [main key_queue workers data_queue log output].
  replace (held (replicate n Idle)) with (@nil Result)
    by (induction n; [done|]; by cbn).
  split; [|by split].
  rewrite app_nil_r. unfold jobs_of. apply Forall_forall.
  intros job (idx & samples & -> & Hidx)%elem_of_lookup_imap. done.
Qed.

(** When every index-list can be fetched and collated: what the pass has
    yielded is an initial part of the batches of the synchronous loop, and
    all of them once the pass has finished after as many results as there
    are index-lists. *)
Lemma output_of_sync_batches (schedule : list actor) (s : system) :
  iter_parallel shuffled self schedule = Some s →
  (∃ k, output s = take k bs)
  ∧ (main s = Finished → total = length batches → output s = bs).
Proof.
  intros Hrun.
  pose proof (received_tickets _ _ Hrun) as Htickets.
  pose proof Hrun as Hproto.
  unfold iter_parallel in Hrun, Hproto. rewrite start_eq in Hproto.
  apply run_protocol in Hproto as [_ Hproto]; [|done|done|].
  2:{ split; [apply length_replicate|]. cbn. by exists []. }
  apply run_data in Hrun as (_ & _ & Hmain);
    [|by rewrite start_eq..|apply data_inv_start].
  split.
  - destruct (main s); [exists 0; by rewrite (proj1 Hmain)|..];
      try (destruct Hmain as (buf & cur & _ & ->); by exists cur).
    destruct Hmain as [_ ->]. by eexists.
  - intros Hfin Htotal. rewrite Hfin in Hmain, Hproto.
    destruct Hmain as (buf & cur & (Hle & Hnone & _ & Hseen) & ->).
    destruct Hproto as (mid & Hlog & _ & Hlen & _).
    assert (length bs = length batches) as Hbs.
    { apply iter_sync_loop_Forall2 in sync_batches.
      symmetry. by eapply Forall2_length. }
    assert (length (received (log s)) = length batches) as Hall.
    { rewrite Hlog, !received_app, received_puts, received_replicate_put,
        received_joins, app_nil_r. cbn. by rewrite Hlen. }
    assert (list_to_set_disj (received (log s)).*1
            =@{gmultiset nat} list_to_set_disj (seq 0 (length batches))) as Heq.
    { destruct (decide (list_to_set_disj (received (log s)).*1
                        =@{gmultiset nat} list_to_set_disj (seq 0 (length batches))))
        as [|Hne]; [done|]. exfalso.
      assert (list_to_set_disj (received (log s)).*1
              ⊂@{gmultiset nat} list_to_set_disj (seq 0 (length batches))) as Hlt.
      { split; [done|]. intros Hsup. apply Hne. by apply (anti_symm (⊆)). }
      apply gmultiset_subset_size in Hlt.
      rewrite !size_list_to_set_disj, length_fmap, length_seq in Hlt.
      unfold Result in *. lia. }
    assert (cur = length bs) as ->; [|by rewrite firstn_all].
    destruct (decide (cur < length bs)) as [Hlt|]; [|lia]. exfalso.
    assert (cur ∈ (received (log s)).*1) as Hin.
    { apply (elem_of_list_to_set_disj (A:=nat)). rewrite Heq.
      apply elem_of_list_to_set_disj, elem_of_seq. lia. }
    apply list_elem_of_fmap in Hin as ([i b] & -> & Hin).
    destruct (Hseen _ _ Hin) as [?|?]; cbn in *; [lia|congruence].
Qed.

End Data.

End ParallelFacts.

(** ** Length and number of batches *)

Section LengthFacts.

Variable shuffled : nat → list nat.
Variable self : DataLoader.

(** A synchronous pass that completes yields as many batches as [len]
    reported before it. *)
Lemma iter_sync_yields_len (bs : list Batch) (self' : DataLoader) :
  iter_sync shuffled self = mkPass bs (Ok self') →
  length bs = __len__ shuffled self.
Proof.
  unfold iter_sync, __len__, bs_len.
  destruct (bs_iter shuffled (_batch_sampler self)) as [batches sampler'].
  destruct (iter_sync_loop self batches) as [bs' [e|]] eqn:Hloop; [done|].
  intros [= <- _]. apply iter_sync_loop_Forall2 in Hloop.
  symmetry. by eapply Forall2_length.
Qed.

(** A pass with workers that finishes has received as many results as the
    batch sampler reports after it has been iterated, and there are no more
    results than jobs: when the sampler then reports more than it has
    yielded, the pass cannot finish. *)
Lemma parallel_pass_cannot_finish (schedule : list actor) (s : system) :
  length (bs_iter shuffled (_batch_sampler self)).1
    < bs_len shuffled (bs_iter shuffled (_batch_sampler self)).2 →
  iter_parallel shuffled self schedule = Some s →
  main s ≠ Finished.
Proof.
  intros Hlt Hrun Hfin.
  pose proof (received_at_most_sent shuffled self schedule s Hrun) as Hle.
  unfold iter_parallel in Hrun. rewrite start_eq in Hrun.
  apply (run_protocol shuffled self) in Hrun as [_ Hproto]; [|done|done|].
  2:{ split; [apply length_replicate|]. cbn. by exists []. }
  rewrite Hfin in Hproto. destruct Hproto as (mid & Hlog & _ & Hlen & _).
  rewrite Hlog, !received_app, received_puts, received_replicate_put,
    received_joins, app_nil_r in Hle. cbn in Hle. unfold Result in *. lia.
Qed.

End LengthFacts.

(** C2, on [DataLoader(ten, batch_size=4, last_batch='rollover',
    num_workers=1)]: [len] is 2 and the batch sampler yields two index-lists,
    but once they are enqueued the sampler holds two rolled-over indices and
    reports 3, so the dispatcher waits for a third result: no schedule
    finishes the pass, and under [rollover_schedule] both batches have been
    yielded and no process can take a step. *)
Theorem rollover_pass_never_finishes :
  __init__ no_iter ten (Some 4) false None (Some rollover) None None 1
    = Ok rollover_loader
  ∧ __len__ in_order rollover_loader = 2
  ∧ (bs_iter in_order (_batch_sampler rollover_loader)).1
    = [[0; 1; 2; 3]; [4; 5; 6; 7]]
  ∧ bs_len in_order (bs_iter in_order (_batch_sampler rollover_loader)).2 = 3
  ∧ (∀ schedule s,
       iter_parallel in_order rollover_loader schedule = Some s →
       main s ≠ Finished)
  ∧ (∃ s, iter_parallel in_order rollover_loader rollover_schedule = Some s
       ∧ length (output s) = 2
       ∧ ∀ a, step in_order a s = None).
Proof.
  split; [done|]. split; [done|]. split; [done|]. split; [done|]. split.
  - intros schedule s. apply parallel_pass_cannot_finish. vm_compute. lia.
  - destruct (iter_parallel in_order rollover_loader rollover_schedule)
      as [s|] eqn:Hrun; vm_compute in Hrun; [|done].
    injection Hrun as <-. eexists. split; [done|]. split; [done|].
    intros [|[|w]]; done.
Qed.

(** The same loader built on a batch sampler that holds two rolled-over
    indices: [len] is 3 and three jobs are sent, but the sampler then reports
    2; the pass finishes after two batches. *)
Lemma rollover_pass_falls_short :
  __init__ no_iter ten None false None None (Some used_sampler) None 1
    = Ok second_loader
  ∧ __len__ in_order second_loader = 3
  ∧ (∃ s, iter_parallel in_order second_loader second_schedule = Some s
       ∧ main s = Finished
       ∧ length (output s) = 2).
Proof.
  split; [done|]. split; [done|].
  destruct (iter_parallel in_order second_loader second_schedule)
    as [s|] eqn:Hrun; vm_compute in Hrun; [|done].
  injection Hrun as <-. by eexists.
Qed.

(** ** The properties at work *)

Example labelled_batch :
  default_batchify_fn no_iter labelled
  = Ok (BList [ BNDArray (mkND [2; 2] float32 (cpu 0) [1; 2; 3; 4]%Z);
                BNDArray (mkND [2] int64 (cpu 0) [7; 8]%Z) ])
  ∧ default_mp_batchify_fn no_iter labelled
    = Ok (BList [ BNDArray (mkND [2; 2] float32 shared [1; 2; 3; 4]%Z);
                  BNDArray (mkND [2] int64 shared [7; 8]%Z) ]).
Proof. done. Qed.

Lemma default_batchify_structure_witness :
  labelled ≠ []
  ∧ Forall (λ s, kind_of s = labelled_kind) labelled
  ∧ default_batchify_fn no_iter labelled
    = Ok (spec_collate labelled_kind labelled)
  ∧ structure_of (spec_collate labelled_kind labelled)
    = batched (length labelled) labelled_kind.
Proof.
  assert (labelled ≠ []) as Hne by done.
  assert (Forall (λ s, kind_of s = labelled_kind) labelled) as Hkinds
    by (repeat constructor).
  split; [exact Hne|]. split; [exact Hkinds|].
  exact (default_batchify_structure no_iter labelled_kind labelled Hne Hkinds).
Defined.

Lemma reorder_restores_order_witness :
  late_arrivals ≡ₚ ticketed three_batches
  ∧ drain_loop (length three_batches) late_arrivals ∅ 0 = (three_batches, true)
  ∧ ∀ total, ∃ n, (drain_loop total late_arrivals ∅ 0).1 = take n three_batches.
Proof.
  assert (late_arrivals ≡ₚ ticketed three_batches) as Hperm.
  { exact (Permutation_cons_append (tail late_arrivals) _). }
  split; [exact Hperm|].
  destruct (reorder_restores_order three_batches late_arrivals Hperm)
    as (Hall & Hpart & _).
  split; [exact Hall | exact Hpart].
Defined.

Lemma worker_loop_iteration_witness :
  Forall2 (λ i s, ds_getitem ten i = Ok s) [0; 1]
    [SOther (mkNP [] int64 [0]%Z); SOther (mkNP [] int64 [1]%Z)]
  ∧ default_batchify_fn no_iter
      [SOther (mkNP [] int64 [0]%Z); SOther (mkNP [] int64 [1]%Z)]
    = Ok (BNDArray (mkND [2] int64 (cpu 0) [0; 1]%Z))
  ∧ has_room (@nil Result) = true
  ∧ worker_loop ten [(Some 5, Some [0; 1]); sentinel] []
      (default_batchify_fn no_iter)
    = worker_loop ten [sentinel] [(5, BNDArray (mkND [2] int64 (cpu 0) [0; 1]%Z))]
        (default_batchify_fn no_iter).
Proof.
  assert (Forall2 (λ i s, ds_getitem ten i = Ok s) [0; 1]
            [SOther (mkNP [] int64 [0]%Z); SOther (mkNP [] int64 [1]%Z)])
    as Hdata by (repeat constructor).
  split; [exact Hdata|]. split; [reflexivity|]. split; [reflexivity|].
  exact (proj1 (proj2 (worker_loop_iteration ten (default_batchify_fn no_iter)
    [sentinel] [] 5 [0; 1] _ _ Hdata eq_refl eq_refl))).
Defined.

Lemma default_last_batch_is_keep_witness :
  0 < 3
  ∧ ¬ (false = true ∧ (None : option Sampler) ≠ None)
  ∧ ∃ self,
      __init__ no_iter ten (Some 3) false None None None None 0 = Ok self
      ∧ bs_last_batch (_batch_sampler self) = keep
      ∧ (bs_iter in_order (_batch_sampler self)).1
        = [[0; 1; 2]; [3; 4; 5]; [6; 7; 8]; [9]].
Proof.
  assert (¬ (false = true ∧ (None : option Sampler) ≠ None)) as Hok
    by (by intros [? _]).
  split; [lia|]. split; [exact Hok|].
  destruct (default_last_batch_is_keep no_iter in_order ten 3 false None None 0
              ltac:(lia) Hok) as (self & Hinit & Hkeep & _).
  exists self. split; [exact Hinit|]. split; [exact Hkeep|].
  injection Hinit as <-. reflexivity.
Defined.

Lemma parallel_pass_protocol_witness :
  ∃ s,
    0 < _num_workers keep_loader
    ∧ iter_parallel in_order keep_loader keep_schedule = Some s
    ∧ main s = Finished
    ∧ received (log s)
      = [ (1, BNDArray (mkND [4] int64 shared [4; 5; 6; 7]%Z));
          (2, BNDArray (mkND [2] int64 shared [8; 9]%Z));
          (0, BNDArray (mkND [4] int64 shared [0; 1; 2; 3]%Z)) ]
    ∧ output s
      = [ BNDArray (mkND [4] int64 shared [0; 1; 2; 3]%Z);
          BNDArray (mkND [4] int64 shared [4; 5; 6; 7]%Z);
          BNDArray (mkND [2] int64 shared [8; 9]%Z) ]
    ∧ length (workers s) = _num_workers keep_loader
    ∧ Forall (λ st, terminated st = true) (workers s).
Proof.
  destruct (iter_parallel in_order keep_loader keep_schedule) as [s|] eqn:Hrun.
  2:{ vm_compute in Hrun. discriminate Hrun. }
  exists s.
  assert (main s = Finished ∧ received (log s)
      = [ (1, BNDArray (mkND [4] int64 shared [4; 5; 6; 7]%Z));
          (2, BNDArray (mkND [2] int64 shared [8; 9]%Z));
          (0, BNDArray (mkND [4] int64 shared [0; 1; 2; 3]%Z)) ]
    ∧ output s
      = [ BNDArray (mkND [4] int64 shared [0; 1; 2; 3]%Z);
          BNDArray (mkND [4] int64 shared [4; 5; 6; 7]%Z);
          BNDArray (mkND [2] int64 shared [8; 9]%Z) ]) as (Hfin & Hrecv & Hout).
  { vm_compute in Hrun. injection Hrun as <-. repeat split; reflexivity. }
  assert (0 < _num_workers keep_loader) as Hpar by (cbn; lia).
  destruct (parallel_pass_protocol in_order keep_loader keep_schedule s Hpar Hrun)
    as [_ Hdone].
  destruct (Hdone Hfin) as (_ & _ & Hlen & Hterm).
  repeat split; assumption || reflexivity.
Defined.

(** * Further properties *)

(** ** The synchronous pass *)

Section SyncFacts.

Variable shuffled : nat → list nat.
Variable self : DataLoader.

(** X2: a synchronous pass that completes has yielded, for every index-list
    of the batch sampler and in the sampler's order, the batch the batchify
    function makes of the samples fetched at its indices; there are as many
    as [len] reported before the pass, and the loader is left with the
    sampler as the pass leaves it. *)
Theorem iter_sync_complete (bs : list Batch) (self' : DataLoader) :
  iter_sync shuffled self = mkPass bs (Ok self') →
  Forall2 (λ samples b,
     fetch (_dataset self) samples ≫= _batchify_fn self = Ok b)
    (bs_iter shuffled (_batch_sampler self)).1 bs
  ∧ length bs = __len__ shuffled self
  ∧ self' = with_sampler self (bs_iter shuffled (_batch_sampler self)).2.
Proof.
  unfold iter_sync, __len__, bs_len.
  destruct (bs_iter shuffled (_batch_sampler self)) as [batches sampler'].
  destruct (iter_sync_loop self batches) as [bs' [e|]] eqn:Hloop; [done|].
  intros [= <- <-]. apply iter_sync_loop_Forall2 in Hloop.
  split; [done|]. split; [|done]. symmetry. by eapply Forall2_length.
Qed.

(** X3: a synchronous pass stops at the first index-list whose samples
    cannot be fetched or collated: it has yielded the batches of the
    index-lists before it and raises that exception, whatever comes after. *)
Theorem iter_sync_stops_at_error (before after : list (list nat))
    (bad : list nat) (bs : list Batch) (e : exn) :
  (bs_iter shuffled (_batch_sampler self)).1 = before ++ bad :: after →
  Forall2 (λ samples b,
     fetch (_dataset self) samples ≫= _batchify_fn self = Ok b) before bs →
  fetch (_dataset self) bad ≫= _batchify_fn self = Raise e →
  iter_sync shuffled self = mkPass bs (Raise e).
Proof.
  unfold iter_sync.
  destruct (bs_iter shuffled (_batch_sampler self)) as [batches sampler'].
  cbn [fst]. intros -> Hbefore Hbad.
  assert (iter_sync_loop self (before ++ bad :: after) = (bs, Some e)) as ->;
    [|done].
  induction Hbefore as [|samples b before bs Hb _ IH].
  - cbn [app iter_sync_loop].
    change (fetch (_dataset self) bad ≫= λ data, _batchify_fn self data)
      with (fetch (_dataset self) bad ≫= _batchify_fn self).
    by rewrite Hbad.
  - cbn [app iter_sync_loop].
    change (fetch (_dataset self) samples ≫= λ data, _batchify_fn self data)
      with (fetch (_dataset self) samples ≫= _batchify_fn self).
    by rewrite Hb, IH.
Qed.

End SyncFacts.

Lemma iter_sync_complete_witness :
  ∃ self',
    iter_sync in_order sync_loader
    = mkPass [ BNDArray (mkND [4] int64 (cpu 0) [0; 1; 2; 3]%Z);
               BNDArray (mkND [4] int64 (cpu 0) [4; 5; 6; 7]%Z);
               BNDArray (mkND [2] int64 (cpu 0) [8; 9]%Z) ] (Ok self')
    ∧ __len__ in_order sync_loader = 3
    ∧ self' = with_sampler sync_loader
                (bs_iter in_order (_batch_sampler sync_loader)).2.
Proof.
  eexists. split; [reflexivity|]. split; [reflexivity|].
  exact (proj2 (proj2 (iter_sync_complete in_order sync_loader _ _ eq_refl))).
Defined.

Lemma iter_sync_stops_at_error_witness :
  (bs_iter in_order (_batch_sampler faulty_loader)).1
    = [[0; 1]; [2; 3]] ++ [12; 5] :: [[6; 7]]
  ∧ fetch (_dataset faulty_loader) [12; 5] ≫= _batchify_fn faulty_loader
    = Raise IndexError
  ∧ iter_sync in_order faulty_loader
    = mkPass [ BNDArray (mkND [2] int64 (cpu 0) [0; 1]%Z);
               BNDArray (mkND [2] int64 (cpu 0) [2; 3]%Z) ] (Raise IndexError).
Proof.
  split; [reflexivity|]. split; [reflexivity|].
  apply (iter_sync_stops_at_error in_order faulty_loader
           [[0; 1]; [2; 3]] [[6; 7]] [12; 5]); [reflexivity| |reflexivity].
  repeat constructor.
Defined.

(** ** The worker on a queue of jobs *)

Section WorkerFacts.

Variable dataset : Dataset.
Variable batchify_fn : batchify.

Lemma worker_body_answers (job : Job) (r : Result) :
  answers dataset batchify_fn job r →
  worker_body dataset batchify_fn job = WPut r.
Proof.
  intros (samples & -> & Hr). destruct r as [idx batch]. cbn in *.
  change (fetch dataset samples ≫= λ data, batchify_fn data)
    with (fetch dataset samples ≫= batchify_fn).
  by rewrite Hr.
Qed.

Lemma worker_loop_jobs (jobs rest : list Job) (results dq : list Result) :
  Forall2 (answers dataset batchify_fn) jobs results →
  (Z.of_nat (length dq + length jobs) ≤ maxsize)%Z →
  worker_loop dataset (jobs ++ rest) dq batchify_fn
  = worker_loop dataset rest (dq ++ results) batchify_fn.
Proof.
  intros Hjobs. revert dq.
  induction Hjobs as [|job r jobs results Hr _ IH]; intros dq Hroom.
  - by rewrite app_nil_r.
  - cbn [app worker_loop]. rewrite (worker_body_answers _ _ Hr).
    unfold has_room. rewrite bool_decide_true by (cbn in Hroom; lia).
    rewrite IH by (rewrite length_app; cbn in *; lia).
    by rewrite <-app_assoc.
Qed.

(** X4: a worker alone on a job queue that holds jobs, then a sentinel,
    publishes the results of the jobs in the order of the jobs and returns at
    the sentinel, as long as the result queue has room for them; what is
    behind the sentinel stays on the job queue. *)
Theorem worker_loop_until_sentinel (jobs rest : list Job)
    (results dq : list Result) (x : option (list nat)) :
  Forall2 (answers dataset batchify_fn) jobs results →
  (Z.of_nat (length dq + length jobs) ≤ maxsize)%Z →
  worker_loop dataset (jobs ++ (None, x) :: rest) dq batchify_fn
  = (Returned, rest, dq ++ results).
Proof.
  intros Hjobs Hroom. by rewrite (worker_loop_jobs _ _ results) by done.
Qed.


End WorkerFacts.

Lemma worker_loop_until_sentinel_witness :
  Forall2 (answers ten (default_mp_batchify_fn no_iter))
    [(Some 0, Some [0; 1]); (Some 1, Some [2; 3])]
    [ (0, BNDArray (mkND [2] int64 shared [0; 1]%Z));
      (1, BNDArray (mkND [2] int64 shared [2; 3]%Z)) ]
  ∧ (Z.of_nat (length (@nil Result) + 2) ≤ maxsize)%Z
  ∧ worker_loop ten
      ([(Some 0, Some [0; 1]); (Some 1, Some [2; 3])]
         ++ sentinel :: [sentinel]) [] (default_mp_batchify_fn no_iter)
    = (Returned, [sentinel],
       [] ++ [ (0, BNDArray (mkND [2] int64 shared [0; 1]%Z));
               (1, BNDArray (mkND [2] int64 shared [2; 3]%Z)) ]).
Proof.
  assert (Forall2 (answers ten (default_mp_batchify_fn no_iter))
            [(Some 0, Some [0; 1]); (Some 1, Some [2; 3])]
            [ (0, BNDArray (mkND [2] int64 shared [0; 1]%Z));
              (1, BNDArray (mkND [2] int64 shared [2; 3]%Z)) ]) as Hjobs.
  { repeat constructor; eexists; (split; [reflexivity|reflexivity]). }
  assert (Z.of_nat (length (@nil Result) + 2) ≤ maxsize)%Z as Hroom
    by (by vm_compute).
  split; [exact Hjobs|]. split; [exact Hroom|].
  exact (worker_loop_until_sentinel ten (default_mp_batchify_fn no_iter)
           _ [sentinel] _ [] None Hjobs Hroom).
Defined.


(** ** Tuples of different lengths *)

Section ZipFacts.

Variable iter_leaf : Sample → result (list Sample).

Lemma zip_next_None (its : list (list Sample)) :
  zip_next its = None → Exists (λ r, length r = 0) its.
Proof.
  induction its as [|[|x t] its IH]; cbn; [done|by left; cbn|].
  destruct (zip_next its) as [[hs ts]|]; [done|]. intros _. right. by apply IH.
Qed.

Lemma zip_next_Some (its ts : list (list Sample)) (hs : list Sample) :
  zip_next its = Some (hs, ts) →
  Forall2 (λ r t, length r = S (length t)) its ts.
Proof.
  revert hs ts. induction its as [|[|x t] its IH]; intros hs ts; cbn.
  - intros [= <- <-]. constructor.
  - done.
  - destruct (zip_next its) as [[hs' ts']|] eqn:Hz; [|done].
    intros [= <- <-]. constructor; [done|]. by eapply IH.
Qed.

Lemma collate_columns_length (collate : Sample → list Sample → result Batch)
    (fields : list Sample) (its : list (list Sample)) (bs : list Batch) :
  collate_columns collate fields its = Ok bs →
  Forall (λ r, length bs ≤ length r) (fields :: its)
  ∧ Exists (λ r, length bs = length r) (fields :: its).
Proof.
  revert its bs. induction fields as [|f fields IH]; intros its bs; cbn.
  - intros [= <-]. split; [|by left].
    constructor; [done|]. apply Forall_forall. intros; cbn; lia.
  - destruct (zip_next its) as [[hs ts]|] eqn:Hz.
    + destruct (collate f hs) as [e|b]; cbn; [done|].
      destruct (collate_columns collate fields ts) as [e|bs'] eqn:Hrec;
        cbn; [done|].
      intros [= <-]. apply IH in Hrec as [Hall Hex].
      apply zip_next_Some in Hz.
      apply Forall_cons in Hall as [Hf Hts].
      split.
      * constructor; [cbn; lia|].
        clear -Hz Hts. induction Hz as [|r t its ts Hr _ IHz]; [done|].
        apply Forall_cons in Hts as [Ht Hts].
        constructor; [cbn; lia|]. by apply IHz.
      * apply Exists_cons in Hex as [Hex|Hex]; [left; cbn; lia|]. right.
        clear -Hz Hex. induction Hz as [|r t its ts Hr _ IHz].
        { by apply Exists_nil in Hex. }
        apply Exists_cons in Hex as [Hex|Hex]; [left; cbn; lia|].
        right. by apply IHz.
    + intros [= <-]. apply zip_next_None in Hz. split.
      * apply Forall_forall. intros; cbn; lia.
      * right. eapply Exists_impl; [exact Hz|]. intros r Hr. cbn in *. lia.
Qed.

(** X6: collating tuples never fails for want of a field: the batch has as
    many fields as the shortest tuple, and the fields beyond that length are
    dropped from the others without an error. *)
Theorem batchify_truncates_tuples (row : list Sample)
    (rows : list (list Sample)) (b : Batch) :
  default_batchify_fn iter_leaf (STuple <$> row :: rows) = Ok b →
  ∃ bs, b = BList bs
    ∧ Forall (λ r, length bs ≤ length r) (row :: rows)
    ∧ Exists (λ r, length bs = length r) (row :: rows).
Proof.
  rewrite fmap_cons. cbn [default_batchify_fn batchify_from].
  rewrite mapR_fmap_Ok by done. cbn [mbind result_bind Ok].
  destruct (collate_columns (batchify_from iter_leaf) row rows)
    as [e|bs] eqn:Hcols; [done|].
  intros [= <-]. exists bs. split; [done|].
  by apply (collate_columns_length (batchify_from iter_leaf)).
Qed.

End ZipFacts.

Lemma batchify_truncates_tuples_witness :
  default_batchify_fn no_iter (STuple <$> ragged)
  = Ok (BList [BNDArray (mkND [2] int64 (cpu 0) [1; 3]%Z)])
  ∧ ∃ bs, BList [BNDArray (mkND [2] int64 (cpu 0) [1; 3]%Z)] = BList bs
      ∧ Forall (λ r, length bs ≤ length r) ragged
      ∧ Exists (λ r, length bs = length r) ragged.
Proof.
  split; [reflexivity|].
  exact (batchify_truncates_tuples no_iter
           [SOther (mkNP [] int64 [1]%Z); SOther (mkNP [] int64 [2]%Z)]
           [[SOther (mkNP [] int64 [3]%Z)]]
           (BList [BNDArray (mkND [2] int64 (cpu 0) [1; 3]%Z)]) eq_refl).
Defined.

(** ** What is yielded, without assumptions on the workers *)

Section SoundFacts.

Variable shuffled : nat → list nat.
Variable self : DataLoader.

Let batches : list (list nat) := (bs_iter shuffled (_batch_sampler self)).1.

Lemma held_replicate_idle (k : nat) : held (replicate k Idle) = [].
Proof. induction k as [|k IH]; [done|]. exact IH. Qed.

Lemma step_yielded (a : actor) (s s' : system) :
  yielded_inv s → step shuffled a s = Some s' → yielded_inv s'.
Proof.
  intros [Hout Hmain] Hstep. destruct a as [|w]; cbn in Hstep.
  - unfold main_step in Hstep. unfold yielded_inv.
    destruct (main s) as [[|job todo]|[|rem] buf cur|[|rem]|next|] eqn:Hm.
    + injection Hstep as <-. cbn [main key_queue workers data_queue log output].
      split; [done|]. split; [by rewrite Hmain|]. intros i b.
      by rewrite lookup_empty.
    + destruct (has_room (key_queue s)); [|done]. injection Hstep as <-.
      cbn [main key_queue workers data_queue log output].
      by rewrite received_snoc_other.
    + injection Hstep as <-. by cbn.
    + destruct (data_queue s) as [|[idx batch] dq]; [done|].
      destruct (receive (idx, batch) buf cur) as [[ys buf'] cur'] eqn:Hrecv.
      injection Hstep as <-.
      cbn [main key_queue workers data_queue log output].
      rewrite received_snoc_get. destruct Hmain as [Hlen Hbuf].
      unfold receive in Hrecv.
      apply flush_spec in Hrecv as (-> & Hys & _ & Hrest); [|done].
      assert (∀ i b, <[idx:=batch]> buf !! i = Some b →
                (i, b) ∈ received (log s) ++ [(idx, batch)]) as Hbuf1.
      { intros i b. destruct (decide (idx = i)) as [->|Hne].
        - rewrite lookup_insert_eq. intros [= <-].
          apply elem_of_app. right. by apply list_elem_of_singleton.
        - rewrite lookup_insert_ne by done. intros Hi.
          apply elem_of_app. left. by apply Hbuf. }
      split; [|split].
      * intros k b Hk. destruct (decide (k < length (output s))) as [Hlt|Hge].
        -- rewrite lookup_app_l in Hk by done.
           apply elem_of_app. left. by apply Hout.
        -- rewrite lookup_app_r in Hk by lia.
           apply Hbuf1. rewrite <-Hk, <-Hys.
           ++ f_equal. lia.
           ++ apply lookup_lt_Some in Hk. lia.
      * rewrite length_app. lia.
      * intros i b. rewrite Hrest. case_decide; [done|]. apply Hbuf1.
    + injection Hstep as <-. by cbn.
    + destruct (has_room (key_queue s)); [|done]. injection Hstep as <-.
      cbn [main key_queue workers data_queue log output].
      by rewrite received_snoc_other.
    + destruct (workers s !! next) as [st|]; [|by injection Hstep as <-].
      destruct (terminated st); [|done]. injection Hstep as <-.
      cbn [main key_queue workers data_queue log output].
      by rewrite received_snoc_other.
    + done.
  - apply worker_step_shape in Hstep
      as (st & st' & _ & _ & _ & Hm & Hlog & Hout').
    unfold yielded_inv. by rewrite Hm, Hlog, Hout'.
Qed.

Lemma run_yielded (schedule : list actor) (s s' : system) :
  yielded_inv s → run shuffled schedule s = Some s' → yielded_inv s'.
Proof.
  revert s. induction schedule as [|a schedule IH]; intros s Hinv; cbn.
  - by intros [= <-].
  - destruct (step shuffled a s) as [s1|] eqn:Hstep; [|done].
    apply IH. by eapply step_yielded.
Qed.

Lemma worker_body_sound (job : Job) :
  valid_job batches job →
  match worker_body (_dataset self) (_batchify_fn self) job with
  | WBreak => job.1 = None
  | WPut r => job.1 = Some r.1 ∧ collated self batches r
  | WRaise _ => True
  end.
Proof.
  destruct job as [[idx|] [samples|]]; try done. cbn. intros Hjob.
  change (fetch (_dataset self) samples ≫= λ data, _batchify_fn self data)
    with (fetch (_dataset self) samples ≫= _batchify_fn self).
  destruct (fetch (_dataset self) samples ≫= _batchify_fn self)
    as [e|b] eqn:Hb; [done|].
  split; [done|]. by exists samples.
Qed.

Lemma step_sound (a : actor) (s s' : system) :
  _dataset (loader s) = _dataset self →
  _batchify_fn (loader s) = _batchify_fn self →
  sound_inv self batches s →
  step shuffled a s = Some s' →
  sound_inv self batches s'.
Proof.
  intros Hds Hfn (Hjobs & Hres) Hstep. destruct a as [|w]; cbn in Hstep.
  - unfold main_step in Hstep. unfold sound_inv, todo in *.
    destruct (main s) as [[|job todo]|[|rem] buf cur|[|rem]|next|] eqn:Hm.
    + by injection Hstep as <-.
    + destruct (has_room (key_queue s)); [|done]. injection Hstep as <-.
      cbn [main key_queue workers data_queue log output].
      rewrite received_snoc_other by done. split; [|done].
      revert Hjobs. rewrite !Forall_app, !Forall_cons, Forall_nil. tauto.
    + by injection Hstep as <-.
    + destruct (data_queue s) as [|r dq]; [done|].
      destruct (receive r buf cur) as [[ys buf'] cur'] eqn:Hrecv.
      injection Hstep as <-.
      cbn [main key_queue workers data_queue log output].
      rewrite received_snoc_get. split; [done|].
      revert Hres. rewrite !Forall_app, !Forall_cons, Forall_nil. tauto.
    + by injection Hstep as <-.
    + destruct (has_room (key_queue s)); [|done]. injection Hstep as <-.
      cbn [main key_queue workers data_queue log output].
      rewrite received_snoc_other by done. split; [|done].
      revert Hjobs. cbn [app]. rewrite !Forall_app, !Forall_cons, Forall_nil.
      cbn. tauto.
    + destruct (workers s !! next) as [st|]; [|by injection Hstep as <-].
      destruct (terminated st); [|done]. injection Hstep as <-.
      cbn [main key_queue workers data_queue log output].
      by rewrite received_snoc_other.
    + done.
  - unfold worker_step in Hstep. unfold sound_inv, todo in *.
    destruct (workers s !! w) as [[|r| |e]|] eqn:Hw; try done.
    + destruct (key_queue s) as [|job kq]; [done|]. injection Hstep as <-.
      cbn [main key_queue workers data_queue log output].
      rewrite Hds, Hfn.
      assert (valid_job batches job) as Hjob.
      { revert Hjobs. rewrite Forall_app, Forall_cons. tauto. }
      apply worker_body_sound in Hjob.
      pose proof (held_insert _ w _
        (after_get (worker_body (_dataset self) (_batchify_fn self) job)) Hw)
        as Hheld.
      rewrite !held_singleton, app_nil_r in Hheld.
      split.
      * revert Hjobs. rewrite !Forall_app, !Forall_cons. tauto.
      * rewrite Forall_app. rewrite Forall_app in Hres. split; [|tauto].
        rewrite Hheld. rewrite Forall_app. split; [|tauto].
        destruct (worker_body (_dataset self) (_batchify_fn self) job);
          cbn; [done| |done]. constructor; [tauto|done].
    + destruct (has_room (data_queue s)); [|done]. injection Hstep as <-.
      cbn [main key_queue workers data_queue log output].
      pose proof (held_insert _ w _ Idle Hw) as Hheld.
      rewrite !held_singleton in Hheld. cbn [app] in Hheld.
      split; [done|]. rewrite <-Hheld in Hres.
      revert Hres. rewrite !Forall_app, !Forall_cons, Forall_nil. tauto.
Qed.

Lemma run_sound (schedule : list actor) (s s' : system) :
  _dataset (loader s) = _dataset self →
  _batchify_fn (loader s) = _batchify_fn self →
  sound_inv self batches s →
  run shuffled schedule s = Some s' →
  sound_inv self batches s'.
Proof.
  revert s. induction schedule as [|a schedule IH]; intros s Hds Hfn Hinv; cbn.
  - by intros [= <-].
  - destruct (step shuffled a s) as [s1|] eqn:Hstep; [|done].
    apply IH.
    + by rewrite (step_loader _ _ _ _ Hstep).
    + by rewrite (step_loader _ _ _ _ Hstep).
    + by eapply step_sound.
Qed.

Lemma reachable_sound (schedule : list actor) (s : system) :
  iter_parallel shuffled self schedule = Some s →
  sound_inv self batches s ∧ yielded_inv s.
Proof.
  unfold iter_parallel. rewrite start_eq. intros Hrun. split.
  - eapply run_sound; [| |..|exact Hrun]; [done|done|].
    unfold sound_inv, todo.
    cbn [main key_queue workers data_queue log output].
    rewrite held_replicate_idle.
    split; [|done]. rewrite app_nil_r. unfold jobs_of. apply Forall_forall.
    intros job (idx & samples & -> & Hidx)%elem_of_lookup_imap. done.
  - eapply run_yielded; [|exact Hrun]. split; [|done].
    intros k b. cbn [output]. by rewrite lookup_nil.
Qed.

(** X7: under every schedule, and whether or not some worker has failed,
    the batch a pass with workers has yielded at position [k] is the batch
    the batchify function makes of the samples fetched at the [k]-th
    index-list of the batch sampler. *)
Theorem yielded_is_collated (schedule : list actor) (s : system)
    (k : nat) (b : Batch) :
  iter_parallel shuffled self schedule = Some s →
  output s !! k = Some b →
  ∃ samples, batches !! k = Some samples
    ∧ fetch (_dataset self) samples ≫= _batchify_fn self = Ok b.
Proof.
  intros [(_ & Hres) (Hout & _)]%reachable_sound Hk.
  apply Hout in Hk. rewrite !Forall_app, !Forall_forall in Hres.
  by apply Hres in Hk.
Qed.

End SoundFacts.

(** ** A job that fails, and the tickets that arrive *)

Lemma multiplicity_NoDup (l : list nat) (x : nat) :
  NoDup l → multiplicity x (list_to_set_disj l) ≤ 1.
Proof.
  induction 1 as [|y l Hy _ IH].
  - rewrite list_to_set_disj_nil, multiplicity_empty. lia.
  - rewrite list_to_set_disj_cons, multiplicity_disj_union.
    destruct (decide (x = y)) as [->|Hne].
    + rewrite multiplicity_singleton.
      rewrite <-elem_of_list_to_set_disj in Hy.
      apply not_elem_of_multiplicity in Hy. rewrite Hy. case_decide; lia.
    + rewrite multiplicity_singleton. case_decide; [done|lia].
Qed.

Lemma list_to_set_disj_NoDup (l l' : list nat) :
  list_to_set_disj l ⊆@{gmultiset nat} list_to_set_disj l' →
  NoDup l' → NoDup l ∧ l ⊆ l'.
Proof.
  intros Hsub Hnd. split.
  - revert Hsub. induction l as [|x l IH]; [constructor|].
    rewrite list_to_set_disj_cons. intros Hsub. constructor.
    + intros Hx. rewrite <-elem_of_list_to_set_disj in Hx.
      rewrite elem_of_multiplicity in Hx.
      pose proof (multiplicity_NoDup l' x Hnd) as Hone.
      specialize (Hsub x).
      rewrite multiplicity_disj_union, multiplicity_singleton in Hsub.
      case_decide; [lia|done].
    + apply IH. etrans; [|exact Hsub]. apply gmultiset_disj_union_subseteq_r.
  - intros x Hx. rewrite <-elem_of_list_to_set_disj in Hx.
    rewrite <-elem_of_list_to_set_disj.
    by eapply gmultiset_elem_of_subseteq.
Qed.

Section FailureFacts.

Variable shuffled : nat → list nat.
Variable self : DataLoader.

Let batches : list (list nat) := (bs_iter shuffled (_batch_sampler self)).1.
Let total : nat := bs_len shuffled (bs_iter shuffled (_batch_sampler self)).2.

Lemma finished_received (schedule : list actor) (s : system) :
  iter_parallel shuffled self schedule = Some s →
  main s = Finished →
  length (received (log s)) = total.
Proof.
  intros Hrun Hfin. unfold iter_parallel in Hrun. rewrite start_eq in Hrun.
  apply (run_protocol shuffled self) in Hrun as [_ Hproto]; [|done|done|].
  2:{ split; [apply length_replicate|]. cbn. by exists []. }
  rewrite Hfin in Hproto. destruct Hproto as (mid & Hlog & _ & Hlen & _).
  rewrite Hlog, !received_app, received_puts, received_replicate_put,
    received_joins, app_nil_r. done.
Qed.

(** X8: when the samples of the index-list at position [t] cannot be
    fetched or collated, no result with the ticket [t] is ever received and
    the pass never yields more than the [t] batches before it, whatever the
    other workers deliver; and if the batch sampler reports at least as many
    index-lists as it has yielded, the pass never finishes: the dispatcher
    waits for a result that no worker will send. *)
Theorem failed_job_blocks_pass (schedule : list actor) (s : system)
    (t : nat) (samples : list nat) (e : exn) :
  batches !! t = Some samples →
  fetch (_dataset self) samples ≫= _batchify_fn self = Raise e →
  iter_parallel shuffled self schedule = Some s →
  (t ∉ (received (log s)).*1)
  ∧ length (output s) ≤ t
  ∧ (length batches ≤ total → main s ≠ Finished).
Proof.
  intros Ht Hbad Hrun.
  destruct (reachable_sound _ _ _ _ Hrun) as [(_ & Hres) (Hout & _)].
  rewrite !Forall_app, !Forall_forall in Hres.
  assert (t ∉ (received (log s)).*1) as Hnot.
  { intros ([t' b] & Heq & Hin)%list_elem_of_fmap. cbn in Heq. subst t'.
    apply Hres in Hin as (samples' & Ht' & Hb). cbn [fst snd] in *.
    pose proof (eq_trans (eq_sym Ht) Ht') as [= <-]. by rewrite Hbad in Hb. }
  split; [done|]. split.
  - destruct (decide (t < length (output s))) as [Hlt|]; [|lia]. exfalso.
    destruct (lookup_lt_is_Some_2 _ _ Hlt) as [b Hb].
    apply Hout in Hb. apply Hnot, list_elem_of_fmap. by exists (t, b).
  - intros Hle Hfin.
    pose proof (finished_received _ _ Hrun Hfin) as Hlen.
    pose proof (received_tickets _ _ _ _ Hrun) as Hsub.
    assert (t < length batches) as Hlt by (by eapply lookup_lt_Some).
    assert (list_to_set_disj (received (log s)).*1
            ⊂@{gmultiset nat} list_to_set_disj (seq 0 (length batches))) as Hss.
    { split; [done|]. intros Hsup. apply Hnot.
      rewrite <-elem_of_list_to_set_disj.
      eapply gmultiset_elem_of_subseteq; [|exact Hsup].
      apply elem_of_list_to_set_disj, elem_of_seq. lia. }
    apply gmultiset_subset_size in Hss.
    rewrite !size_list_to_set_disj, length_fmap, length_seq in Hss.
    unfold Result, batches, total in *. lia.
Qed.

(** X9: under every schedule, the tickets of the results the dispatcher has
    received are tickets of jobs of the pass, and no ticket is received
    twice. *)
Theorem received_once (schedule : list actor) (s : system) :
  iter_parallel shuffled self schedule = Some s →
  NoDup (received (log s)).*1
  ∧ Forall (λ t, t < length batches) (received (log s)).*1.
Proof.
  intros Hsub%received_tickets.
  apply list_to_set_disj_NoDup in Hsub as [Hnd Hin]; [|apply NoDup_seq].
  split; [done|]. apply Forall_forall. intros t Ht%Hin%elem_of_seq.
  unfold batches. lia.
Qed.

End FailureFacts.

Lemma yielded_is_collated_witness :
  ∃ s,
    iter_parallel in_order keep_loader keep_schedule = Some s
    ∧ output s !! 1 = Some (BNDArray (mkND [4] int64 shared [4; 5; 6; 7]%Z))
    ∧ ∃ samples,
        (bs_iter in_order (_batch_sampler keep_loader)).1 !! 1 = Some samples
        ∧ fetch (_dataset keep_loader) samples ≫= _batchify_fn keep_loader
          = Ok (BNDArray (mkND [4] int64 shared [4; 5; 6; 7]%Z)).
Proof.
  destruct (iter_parallel in_order keep_loader keep_schedule) as [s|] eqn:Hrun.
  2:{ vm_compute in Hrun. discriminate Hrun. }
  exists s.
  assert (output s !! 1
          = Some (BNDArray (mkND [4] int64 shared [4; 5; 6; 7]%Z))) as Hout.
  { vm_compute in Hrun. injection Hrun as <-. reflexivity. }
  split; [reflexivity|]. split; [exact Hout|].
  exact (yielded_is_collated in_order keep_loader keep_schedule s 1 _ Hrun Hout).
Defined.

Lemma failed_job_blocks_pass_witness :
  ∃ s,
    (bs_iter in_order (_batch_sampler faulty_parallel)).1 !! 2 = Some [12; 5]
    ∧ fetch (_dataset faulty_parallel) [12; 5] ≫= _batchify_fn faulty_parallel
      = Raise IndexError
    ∧ iter_parallel in_order faulty_parallel faulty_schedule = Some s
    ∧ (received (log s)).*1 = [0; 1; 3]
    ∧ length (output s) = 2
    ∧ (2 ∉ (received (log s)).*1)
    ∧ length (output s) ≤ 2
    ∧ main s ≠ Finished.
Proof.
  destruct (iter_parallel in_order faulty_parallel faulty_schedule)
    as [s|] eqn:Hrun.
  2:{ vm_compute in Hrun. discriminate Hrun. }
  exists s.
  assert ((received (log s)).*1 = [0; 1; 3] ∧ length (output s) = 2)
    as [Hrecv Hlen].
  { vm_compute in Hrun. injection Hrun as <-. split; reflexivity. }
  destruct (failed_job_blocks_pass in_order faulty_parallel faulty_schedule s
              2 [12; 5] IndexError eq_refl eq_refl Hrun)
    as (Hnot & Hle & Hfin).
  split; [reflexivity|]. split; [reflexivity|]. split; [reflexivity|].
  split; [exact Hrecv|]. split; [exact Hlen|]. split; [exact Hnot|].
  split; [exact Hle|]. apply Hfin. vm_compute. lia.
Defined.

Lemma received_once_witness :
  ∃ s,
    iter_parallel in_order keep_loader keep_schedule = Some s
    ∧ (received (log s)).*1 = [1; 2; 0]
    ∧ NoDup (received (log s)).*1
    ∧ Forall (λ t, t < length (bs_iter in_order (_batch_sampler keep_loader)).1)
        (received (log s)).*1.
Proof.
  destruct (iter_parallel in_order keep_loader keep_schedule) as [s|] eqn:Hrun.
  2:{ vm_compute in Hrun. discriminate Hrun. }
  exists s.
  assert ((received (log s)).*1 = [1; 2; 0]) as Hrecv.
  { vm_compute in Hrun. injection Hrun as <-. reflexivity. }
  split; [reflexivity|]. split; [exact Hrecv|].
  exact (received_once in_order keep_loader keep_schedule s Hrun).
Defined.

(** ** More index-lists than the queues can hold *)

Lemma busy_middle (l1 l2 : list worker_state) (st : worker_state) :
  length (busy (l1 ++ st :: l2))
  = length (busy [st]) + length (busy (l1 ++ l2)).
Proof.
  unfold busy. change (st :: l2) with ([st] ++ l2).
  rewrite !omap_app, !length_app. lia.
Qed.

Lemma busy_insert (ws : list worker_state) (w : nat) (old new : worker_state) :
  ws !! w = Some old →
  length (busy (<[w := new]> ws)) + length (busy [old])
  = length (busy [new]) + length (busy ws).
Proof.
  intros Hw. rewrite insert_take_drop by (by eapply lookup_lt_Some).
  rewrite <-(take_drop_middle ws w old Hw) at 3.
  rewrite !busy_middle. lia.
Qed.

Lemma busy_le (ws : list worker_state) : length (busy ws) ≤ length ws.
Proof.
  induction ws as [|st ws IH]; [done|].
  change (st :: ws) with ([st] ++ ws). unfold busy in *.
  rewrite omap_app, !length_app. destruct st; cbn; lia.
Qed.

Section OverflowFacts.

Variable shuffled : nat → list nat.
Variable self : DataLoader.

Let batches : list (list nat) := (bs_iter shuffled (_batch_sampler self)).1.

Hypothesis too_many :
  (2 * maxsize + Z.of_nat (_num_workers self) < Z.of_nat (length batches))%Z.

Lemma step_enqueue (a : actor) (s s' : system) :
  length (workers s) = _num_workers self →
  (Z.of_nat (length (key_queue s)) ≤ maxsize)%Z
  ∧ (Z.of_nat (length (data_queue s)) ≤ maxsize)%Z →
  enqueue_inv (jobs_of batches) s ∧ (∃ todo, main s = Enqueue todo ∧ todo ≠ []) →
  step shuffled a s = Some s' →
  enqueue_inv (jobs_of batches) s' ∧ (∃ todo, main s' = Enqueue todo ∧ todo ≠ []).
Proof.
  intros Hws Hbound [Hinv (todo & Hmain & Hne)] Hstep.
  assert ((Z.of_nat (length (key_queue s')) ≤ maxsize)%Z
          ∧ (Z.of_nat (length (data_queue s')) ≤ maxsize)%Z) as [Hkq' Hdq']
    by (by eapply step_bounded).
  unfold enqueue_inv in *. rewrite Hmain in Hinv.
  destruct Hinv as (sent & Hjobs & Hsent & Hout).
  destruct a as [|w]; cbn in Hstep.
  - unfold main_step in Hstep. rewrite Hmain in Hstep.
    destruct todo as [|job todo]; [done|].
    destruct (has_room (key_queue s)); [|done]. injection Hstep as <-.
    cbn [main key_queue workers data_queue log output] in *.
    assert (length (sent ++ [job])
            ≤ length (key_queue s ++ [job]) + length (data_queue s)
              + length (busy (workers s))) as Hsent'.
    { rewrite !length_app. cbn. lia. }
    split.
    + exists (sent ++ [job]). by rewrite <-app_assoc.
    + exists todo. split; [done|]. intros ->.
      pose proof (busy_le (workers s)) as Hbusy.
      assert (length (jobs_of batches) = length batches) as Hlen
        by apply length_imap.
      rewrite Hjobs in Hlen.
      rewrite length_app in Hkq'. rewrite !length_app in Hsent'.
      rewrite length_app in Hlen. cbn [length] in *.
      unfold maxsize, batches in *. lia.
  - pose proof Hstep as Hshape.
    apply worker_step_shape in Hshape as (st & st' & Hw & Hst & _ & Hm & _ & Ho).
    rewrite Hm, Hmain, Ho. split; [|by exists todo].
    exists sent. split; [done|]. split; [|done].
    unfold worker_step in Hstep. rewrite Hw in Hstep.
    destruct st as [|r| |e]; try done.
    + destruct (key_queue s) as [|job kq]; [done|]. injection Hstep as <-.
      cbn [main key_queue workers data_queue log output] in *.
      pose proof (busy_insert _ w _
        (after_get (worker_body (_dataset (loader s))
                      (_batchify_fn (loader s)) job)) Hw) as Hbusy.
      assert (length (busy [after_get (worker_body (_dataset (loader s))
                (_batchify_fn (loader s)) job)]) = 1) as Hone.
      { by destruct (worker_body _ _ job). }
      rewrite Hone in Hbusy.
      change (length (busy [Idle])) with 0 in Hbusy.
      cbn [length] in Hsent. lia.
    + destruct (has_room (data_queue s)); [|done]. injection Hstep as <-.
      cbn [main key_queue workers data_queue log output] in *.
      pose proof (busy_insert _ w _ Idle Hw) as Hbusy.
      change (length (busy [Idle])) with 0 in Hbusy.
      change (length (busy [Holding r])) with 1 in Hbusy.
      rewrite length_app. cbn [length]. lia.
Qed.

(** X10: when the batch sampler yields more index-lists than the two queues
    of 65535 items and the workers can hold together, then under every
    schedule and at every moment of the pass: neither queue holds more than
    65535 items; the dispatcher is still in its first loop, having put an
    initial part of the jobs and nothing else, with jobs left to put; it has
    taken no result from the result queue; nothing has been yielded; and the
    pass has not finished. *)
Theorem enqueue_overflow_blocks (schedule : list actor) (s : system) :
  iter_parallel shuffled self schedule = Some s →
  (Z.of_nat (length (key_queue s)) ≤ maxsize)%Z
  ∧ (Z.of_nat (length (data_queue s)) ≤ maxsize)%Z
  ∧ (∃ sent todo, jobs_of batches = sent ++ todo
       ∧ main s = Enqueue todo ∧ todo ≠ [] ∧ log s = Put <$> sent)
  ∧ received (log s) = []
  ∧ output s = []
  ∧ main s ≠ Finished.
Proof.
  intros Hrun.
  assert (((Z.of_nat (length (key_queue s)) ≤ maxsize)%Z
           ∧ (Z.of_nat (length (data_queue s)) ≤ maxsize)%Z)
          ∧ enqueue_inv (jobs_of batches) s
          ∧ (∃ todo, main s = Enqueue todo ∧ todo ≠ []))
    as ([Hkq Hdq] & Hinv & Hmain).
  { unfold iter_parallel in Hrun. rewrite start_eq in Hrun.
    set (s0 := mkSystem _ _ _ _ _ _ _) in Hrun.
    assert (length (workers s0) = _num_workers self) as Hws
      by apply length_replicate.
    assert ((Z.of_nat (length (key_queue s0)) ≤ maxsize)%Z
            ∧ (Z.of_nat (length (data_queue s0)) ≤ maxsize)%Z) as Hbound
      by (cbn; unfold maxsize; lia).
    assert (enqueue_inv (jobs_of batches) s0
            ∧ (∃ todo, main s0 = Enqueue todo ∧ todo ≠ [])) as Hinv.
    { split.
      - exists []. cbn. split; [done|]. split; [lia|done].
      - eexists. split; [done|]. intros Hnil.
        apply (f_equal length) in Hnil. unfold jobs_of in Hnil.
        rewrite length_imap in Hnil. cbn in Hnil.
        unfold maxsize, batches in *. lia. }
    clearbody s0. revert s0 Hws Hbound Hinv Hrun.
    induction schedule as [|a schedule IH]; intros s0 Hws Hbound Hinv; cbn.
    - by intros [= <-].
    - destruct (step shuffled a s0) as [s1|] eqn:Hstep; [|done].
      apply IH.
      + destruct a as [|w]; cbn in Hstep.
        * unfold main_step in Hstep.
          repeat (case_match; simplify_eq/=); done.
        * apply worker_step_shape in Hstep as (? & ? & _ & _ & -> & _).
          by rewrite length_insert.
      + by eapply step_bounded.
      + by eapply step_enqueue. }
  unfold iter_parallel in Hrun. rewrite start_eq in Hrun.
  apply (run_protocol shuffled self) in Hrun as [_ Hproto]; [|done|done|].
  2:{ split; [apply length_replicate|]. cbn. by exists []. }
  destruct Hmain as (todo & Hmain & Hne). rewrite Hmain in Hproto.
  destruct Hproto as (sent & Hjobs & Hlog).
  split; [done|]. split; [done|].
  split; [by exists sent, todo|].
  split; [by rewrite Hlog, received_puts|].
  split; [|by rewrite Hmain].
  unfold enqueue_inv in Hinv. rewrite Hmain in Hinv.
  by destruct Hinv as (_ & _ & _ & ->).
Qed.

End OverflowFacts.

Lemma fill_batches_singletons (indices : list nat) :
  fill_batches 1 [] indices = ((λ i, [i]) <$> indices, []).
Proof.
  induction indices as [|i indices IH]; [done|].
  cbn [fill_batches app length]. rewrite bool_decide_true by done.
  by rewrite IH.
Qed.

Lemma many_batches :
  length (bs_iter in_order (_batch_sampler many_loader)).1 = Z.to_nat 131072.
Proof.
  unfold many_loader, bs_iter.
  cbn [_batch_sampler bs_batch_size bs_prev bs_sampler sampler_iter].
  rewrite fill_batches_singletons. cbn [fst].
  unfold in_order. by rewrite length_fmap, length_seq.
Qed.

(** The dispatcher puts [k] jobs in [k] steps while the job queue has
    room. *)
Lemma enqueue_first (shuffled : nat → list nat) (L : DataLoader)
    (ws : list worker_state) (k : nat) (todo sent : list Job)
    (lg : list event) :
  k ≤ length todo →
  (Z.of_nat (length sent + k) ≤ maxsize)%Z →
  run shuffled (replicate k Main)
    (mkSystem L sent [] ws (Enqueue todo) [] lg)
  = Some (mkSystem L (sent ++ take k todo) [] ws (Enqueue (drop k todo)) []
            (lg ++ (Put <$> take k todo))).
Proof.
  revert todo sent lg. induction k as [|k IH]; intros todo sent lg Hk Hroom.
  - by rewrite take_0, drop_0, !app_nil_r.
  - destruct todo as [|job todo]; [cbn in Hk; lia|].
    cbn [replicate run step main_step main key_queue].
    unfold has_room. rewrite bool_decide_true by lia.
    cbn [loader key_queue data_queue workers output log].
    rewrite IH by (rewrite ?length_app; cbn in *; lia).
    cbn [take drop fmap list_fmap]. by rewrite <-!app_assoc.
Qed.

Lemma length_jobs_of (l : list (list nat)) : length (jobs_of l) = length l.
Proof. apply length_imap. Qed.

(** From the start of a pass, [k] steps of the dispatcher put the first [k]
    jobs on the job queue, when there are that many and the queue has room
    for them. *)
Lemma enqueue_from_start (shuffled : nat → list nat) (self : DataLoader)
    (k : nat) :
  k ≤ length (bs_iter shuffled (_batch_sampler self)).1 →
  (Z.of_nat k ≤ maxsize)%Z →
  ∃ s, iter_parallel shuffled self (replicate k Main) = Some s
    ∧ key_queue s
      = take k (jobs_of (bs_iter shuffled (_batch_sampler self)).1).
Proof.
  intros Hk Hroom. unfold iter_parallel. rewrite start_eq.
  rewrite enqueue_first by (rewrite ?length_jobs_of; cbn [length]; lia).
  by eexists.
Qed.

Lemma enqueue_overflow_blocks_witness :
  (2 * maxsize + Z.of_nat (_num_workers many_loader)
   < Z.of_nat (length (bs_iter in_order (_batch_sampler many_loader)).1))%Z
  ∧ ∃ s,
      iter_parallel in_order many_loader (replicate (Z.to_nat maxsize) Main)
      = Some s
      ∧ length (key_queue s) = Z.to_nat maxsize
      ∧ (Z.of_nat (length (key_queue s)) ≤ maxsize)%Z
      ∧ (Z.of_nat (length (data_queue s)) ≤ maxsize)%Z
      ∧ (∃ sent todo,
           jobs_of (bs_iter in_order (_batch_sampler many_loader)).1
           = sent ++ todo
           ∧ main s = Enqueue todo ∧ todo ≠ [] ∧ log s = Put <$> sent)
      ∧ received (log s) = []
      ∧ output s = []
      ∧ main s ≠ Finished.
Proof.
  assert (2 * maxsize + Z.of_nat (_num_workers many_loader)
          < Z.of_nat (length (bs_iter in_order (_batch_sampler many_loader)).1))%Z
    as Hmany.
  { rewrite many_batches, Z2Nat.id by lia. unfold maxsize. cbn. lia. }
  split; [exact Hmany|].
  assert (Z.to_nat maxsize
          ≤ length (bs_iter in_order (_batch_sampler many_loader)).1) as Hk.
  { rewrite many_batches. unfold maxsize. lia. }
  assert (Z.of_nat (Z.to_nat maxsize) ≤ maxsize)%Z as Hroom
    by (unfold maxsize; lia).
  destruct (enqueue_from_start in_order many_loader (Z.to_nat maxsize) Hk Hroom)
    as (s & Hrun & Hkq).
  exists s. split; [exact Hrun|]. split.
  - rewrite Hkq, length_take, length_jobs_of. lia.
  - exact (enqueue_overflow_blocks in_order many_loader Hmany _ s Hrun).
Defined.

(** ** A schedule that finishes *)

Section LivenessFacts.

Variable shuffled : nat → list nat.
Variable L : DataLoader.

Lemma run_app (sched1 sched2 : list actor) (s : system) :
  run shuffled (sched1 ++ sched2) s
  = run shuffled sched1 s ≫= run shuffled sched2.
Proof.
  revert s. induction sched1 as [|a sched1 IH]; intros s; [done|].
  cbn [app run]. destruct (step shuffled a s); [apply IH|done].
Qed.

Lemma enqueue_all (ws : list worker_state) (todo sent : list Job)
    (lg : list event) :
  (Z.of_nat (length sent + length todo) ≤ maxsize)%Z →
  run shuffled (replicate (length todo) Main)
    (mkSystem L sent [] ws (Enqueue todo) [] lg)
  = Some (mkSystem L (sent ++ todo) [] ws (Enqueue []) []
            (lg ++ (Put <$> todo))).
Proof.
  revert sent lg. induction todo as [|job todo IH]; intros sent lg Hroom.
  - by rewrite !app_nil_r.
  - cbn [length replicate run step main_step main key_queue].
    unfold has_room. rewrite bool_decide_true by (cbn in Hroom; lia).
    cbn [loader key_queue data_queue workers output log].
    rewrite IH by (rewrite length_app; cbn in *; lia).
    by rewrite <-!app_assoc.
Qed.

Lemma work_all (ws : list worker_state) (m : dispatcher) (out : list Batch)
    (lg : list event) (todo : list Job) (results dq : list Result) :
  ws !! 0 = Some Idle →
  Forall2 (answers (_dataset L) (_batchify_fn L)) todo results →
  (Z.of_nat (length dq + length todo) ≤ maxsize)%Z →
  run shuffled (concat (replicate (length todo) [Worker 0; Worker 0]))
    (mkSystem L todo dq ws m out lg)
  = Some (mkSystem L [] (dq ++ results) ws m out lg).
Proof.
  intros Hidle Hjobs. revert dq.
  induction Hjobs as [|job r todo results Hr _ IH]; intros dq Hroom.
  - by rewrite app_nil_r.
  - assert (0 < length ws) as Hlen by (by eapply lookup_lt_Some).
    cbn [length replicate concat app run step].
    unfold worker_step at 1.
    cbn [workers key_queue loader data_queue main output log].
    rewrite Hidle, (worker_body_answers _ _ _ _ Hr).
    cbn [after_get]. unfold worker_step at 1.
    cbn [workers key_queue loader data_queue main output log].
    rewrite list_lookup_insert_eq by done.
    unfold has_room. rewrite bool_decide_true by (cbn in Hroom; lia).
    rewrite list_insert_insert_eq, (list_insert_id _ _ _ Hidle).
    rewrite IH by (rewrite length_app; cbn in *; lia).
    by rewrite <-app_assoc.
Qed.

Lemma receive_next (batch : Batch) (curr_idx : nat) :
  receive (curr_idx, batch) ∅ curr_idx = ([batch], ∅, S curr_idx).
Proof.
  unfold receive. rewrite map_size_insert_None by apply lookup_empty.
  rewrite map_size_empty. cbn [flush]. rewrite lookup_insert_eq.
  cbn [flush]. by rewrite delete_insert_eq, delete_empty.
Qed.

Lemma drain_all (ws : list worker_state) (kq : list Job) (bs : list Batch)
    (curr_idx : nat) (out : list Batch) (lg : list event) :
  ∃ lg',
    run shuffled (replicate (length bs) Main)
      (mkSystem L kq (imap (λ i b, (curr_idx + i, b)) bs) ws
         (Drain (length bs) ∅ curr_idx) out lg)
    = Some (mkSystem L kq [] ws (Drain 0 ∅ (curr_idx + length bs))
              (out ++ bs) lg').
Proof.
  revert curr_idx out lg. induction bs as [|b bs IH]; intros cur out lg.
  - exists lg. by rewrite Nat.add_0_r, app_nil_r.
  - cbn [length replicate imap run step main_step main data_queue].
    rewrite Nat.add_0_r, receive_next.
    cbn [loader key_queue data_queue workers output log].
    destruct (IH (S cur) (out ++ [b]) (lg ++ Get (cur, b) :: (Yield <$> [b])))
      as [lg' Hrun].
    exists lg'.
    rewrite (imap_ext _ (λ i b, (S cur + i, b))) by (intros; cbn; f_equal; lia).
    rewrite Hrun, <-app_assoc. do 3 f_equal. lia.
Qed.

Lemma stop_all (dq : list Result) (out : list Batch) (k : nat)
    (gone : list worker_state) (lg : list event) :
  ∃ lg',
    run shuffled (concat ((λ w, [Main; Worker w]) <$> seq (length gone) k))
      (mkSystem L [] dq (gone ++ replicate k Idle) (Stop k) out lg)
    = Some (mkSystem L [] dq (gone ++ replicate k Exited) (Stop 0) out lg').
Proof.
  revert gone lg. induction k as [|k IH]; intros gone lg.
  - by exists lg.
  - cbn [seq fmap list_fmap concat app run step main_step main key_queue].
    unfold has_room. rewrite bool_decide_true by (cbn; unfold maxsize; lia).
    cbn [loader key_queue data_queue workers output log app].
    unfold worker_step.
    cbn [loader key_queue data_queue workers output log main].
    rewrite lookup_app_r, Nat.sub_diag by done. cbn [replicate lookup list_lookup].
    cbn [sentinel worker_body after_get].
    rewrite insert_app_r_alt, Nat.sub_diag by done. cbn [insert list_insert].
    destruct (IH (gone ++ [Exited]) (lg ++ [Put (None, None)])) as [lg' Hrun].
    exists lg'. rewrite length_app, Nat.add_1_r in Hrun.
    rewrite <-!app_assoc in Hrun. cbn [app] in Hrun. exact Hrun.
Qed.

Lemma join_all (kq : list Job) (dq : list Result) (ws : list worker_state)
    (out : list Batch) (k next : nat) (lg : list event) :
  Forall (λ st, terminated st = true) ws →
  next + k = length ws →
  ∃ lg',
    run shuffled (replicate k Main) (mkSystem L kq dq ws (Join next) out lg)
    = Some (mkSystem L kq dq ws (Join (length ws)) out lg').
Proof.
  intros Hterm. revert next lg. induction k as [|k IH]; intros next lg Hk.
  - exists lg. rewrite Nat.add_0_r in Hk. by subst.
  - cbn [replicate run step main_step main workers].
    destruct (lookup_lt_is_Some_2 ws next) as [st Hst]; [lia|].
    rewrite Hst. rewrite Forall_lookup in Hterm. rewrite (Hterm _ _ Hst).
    cbn [loader key_queue data_queue workers output log].
    apply IH. lia.
Qed.

End LivenessFacts.

Lemma answers_ticketed (self : DataLoader) (batches : list (list nat))
    (bs : list Batch) :
  iter_sync_loop self batches = (bs, None) →
  Forall2 (answers (_dataset self) (_batchify_fn self))
    (jobs_of batches) (ticketed bs).
Proof.
  intros Hsync%iter_sync_loop_Forall2. unfold jobs_of, ticketed.
  apply Forall2_same_length_lookup. split.
  - rewrite !length_imap. by eapply Forall2_length.
  - intros i job r. rewrite !list_lookup_imap.
    destruct (batches !! i) as [samples|] eqn:Hi; [|done].
    destruct (bs !! i) as [b|] eqn:Hb; [|done]. cbn.
    intros [= <-] [= <-]. exists samples. split; [done|]. cbn.
    exact (Forall2_lookup_lr _ _ _ _ _ _ Hsync Hi Hb).
Qed.

(** X11: a pass with at least one worker over at most 65535 index-lists, all
    of which can be fetched and collated, and whose batch sampler reports
    after the pass the number of index-lists it has yielded, can finish:
    there is a schedule under which it finishes, having yielded the batches
    of the synchronous loop in their order. *)
Theorem parallel_pass_can_finish (shuffled : nat → list nat)
    (self : DataLoader) (bs : list Batch) :
  0 < _num_workers self →
  (Z.of_nat (length (bs_iter shuffled (_batch_sampler self)).1) ≤ maxsize)%Z →
  iter_sync_loop self (bs_iter shuffled (_batch_sampler self)).1 = (bs, None) →
  bs_len shuffled (bs_iter shuffled (_batch_sampler self)).2
    = length (bs_iter shuffled (_batch_sampler self)).1 →
  ∃ s,
    iter_parallel shuffled self
      (finishing_schedule
         (length (bs_iter shuffled (_batch_sampler self)).1)
         (_num_workers self)) = Some s
    ∧ main s = Finished
    ∧ output s = bs.
Proof.
  intros Hpar Hfit Hsync Hlen.
  unfold iter_parallel, finishing_schedule. rewrite start_eq.
  set (batches := (bs_iter shuffled (_batch_sampler self)).1) in *.
  set (L := with_sampler self (bs_iter shuffled (_batch_sampler self)).2).
  pose proof (answers_ticketed _ _ _ Hsync) as Hjobs.
  assert (length bs = length batches) as Hbs.
  { apply iter_sync_loop_Forall2 in Hsync. symmetry. by eapply Forall2_length. }
  assert (length (jobs_of batches) = length batches) as Hjl
    by apply length_imap.
  destruct (drain_all shuffled L (replicate (_num_workers self) Idle) [] bs 0 []
              ([] ++ (Put <$> jobs_of batches))) as [lg1 Hdrain].
  destruct (stop_all shuffled L [] ([] ++ bs) (_num_workers self) [] lg1)
    as [lg2 Hstop].
  destruct (join_all shuffled L [] [] (replicate (_num_workers self) Exited)
              ([] ++ bs) (_num_workers self) 0 lg2) as [lg3 Hjoin].
  { apply Forall_replicate. done. }
  { by rewrite length_replicate. }
  cbn [length app Nat.add] in Hdrain, Hstop, Hjoin.
  exists (mkSystem L [] [] (replicate (_num_workers self) Exited) Finished
            bs lg3).
  split; [|done].
  rewrite <-Hjl. rewrite run_app.
  rewrite enqueue_all by (rewrite Hjl; cbn [length]; lia).
  cbn [mbind option_bind].
  rewrite run_app. cbn [run step main_step main].
  cbn [loader key_queue data_queue workers output log mbind option_bind].
  rewrite run_app.
  rewrite (work_all shuffled L _ _ _ _ _ (ticketed bs) []);
    [|by destruct (_num_workers self); [lia|]|exact Hjobs
     |rewrite Hjl; cbn [length]; lia].
  cbn [mbind option_bind app].
  rewrite run_app. unfold __len__, L at 2. cbn [with_sampler _batch_sampler].
  rewrite Hlen. fold batches. rewrite Hjl, <-Hbs.
  unfold ticketed.
  rewrite Hdrain. cbn [mbind option_bind].
  cbn [run step main_step main].
  cbn [loader key_queue data_queue workers output log mbind option_bind].
  rewrite run_app. unfold L at 2. cbn [with_sampler _num_workers].
  rewrite Hstop. cbn [mbind option_bind].
  cbn [run step main_step main].
  cbn [loader key_queue data_queue workers output log mbind option_bind].
  rewrite run_app.
  rewrite Hjoin. cbn [mbind option_bind].
  cbn [run step main_step main workers].
  rewrite length_replicate.
  by rewrite (lookup_ge_None_2 (replicate (_num_workers self) Exited))
    by (by rewrite length_replicate).
Qed.

Lemma parallel_pass_can_finish_witness :
  0 < _num_workers keep_loader
  ∧ (Z.of_nat (length (bs_iter in_order (_batch_sampler keep_loader)).1)
     ≤ maxsize)%Z
  ∧ iter_sync_loop keep_loader (bs_iter in_order (_batch_sampler keep_loader)).1
    = ([ BNDArray (mkND [4] int64 shared [0; 1; 2; 3]%Z);
         BNDArray (mkND [4] int64 shared [4; 5; 6; 7]%Z);
         BNDArray (mkND [2] int64 shared [8; 9]%Z) ], None)
  ∧ bs_len in_order (bs_iter in_order (_batch_sampler keep_loader)).2
    = length (bs_iter in_order (_batch_sampler keep_loader)).1
  ∧ ∃ s,
      iter_parallel in_order keep_loader
        (finishing_schedule
           (length (bs_iter in_order (_batch_sampler keep_loader)).1)
           (_num_workers keep_loader)) = Some s
      ∧ main s = Finished
      ∧ output s
        = [ BNDArray (mkND [4] int64 shared [0; 1; 2; 3]%Z);
            BNDArray (mkND [4] int64 shared [4; 5; 6; 7]%Z);
            BNDArray (mkND [2] int64 shared [8; 9]%Z) ].
Proof.
  assert (0 < _num_workers keep_loader) as Hpar by (cbn; lia).
  assert (Z.of_nat (length (bs_iter in_order (_batch_sampler keep_loader)).1)
          ≤ maxsize)%Z as Hfit by (by vm_compute).
  split; [exact Hpar|]. split; [exact Hfit|].
  split; [reflexivity|]. split; [reflexivity|].
  exact (parallel_pass_can_finish in_order keep_loader _ Hpar Hfit
           eq_refl eq_refl).
Defined.

(** ** The order of what is yielded, whatever the index-lists *)

Section OrderFacts.

Variable shuffled : nat → list nat.
Variable self : DataLoader.

Let batches : list (list nat) := (bs_iter shuffled (_batch_sampler self)).1.
Let total : nat := bs_len shuffled (bs_iter shuffled (_batch_sampler self)).2.

Lemma collated_prefix (l : list (list nat)) (out : list Batch) :
  (∀ k b, out !! k = Some b →
     ∃ samples, l !! k = Some samples
       ∧ fetch (_dataset self) samples ≫= _batchify_fn self = Ok b) →
  out `prefix_of` (iter_sync_loop self l).1.
Proof.
  revert out. induction l as [|samples l IH]; intros out Hout.
  - destruct out as [|b out]; [done|].
    by destruct (Hout 0 b eq_refl) as (? & ? & _).
  - destruct out as [|b out]; [apply prefix_nil|].
    destruct (Hout 0 b eq_refl) as (samples' & [= <-] & Hb).
    cbn [iter_sync_loop].
    change (fetch (_dataset self) samples ≫= λ data, _batchify_fn self data)
      with (fetch (_dataset self) samples ≫= _batchify_fn self).
    rewrite Hb. specialize (IH out (λ k b', Hout (S k) b')).
    destruct (iter_sync_loop self l) as [bs e]. by apply prefix_cons.
Qed.

Lemma iter_sync_loop_no_error (l : list (list nat)) :
  (∀ t samples, l !! t = Some samples →
     ∃ b, fetch (_dataset self) samples ≫= _batchify_fn self = Ok b) →
  (iter_sync_loop self l).2 = None.
Proof.
  induction l as [|samples l IH]; intros Hok; [done|].
  destruct (Hok 0 samples eq_refl) as [b Hb]. cbn [iter_sync_loop].
  change (fetch (_dataset self) samples ≫= λ data, _batchify_fn self data)
    with (fetch (_dataset self) samples ≫= _batchify_fn self).
  rewrite Hb. specialize (IH (λ t, Hok (S t))).
  by destruct (iter_sync_loop self l).
Qed.

(** X1: under every schedule and for every loader, what a pass with workers
    has yielded at any moment is an initial part of what the synchronous
    loop yields on the same index-lists, which stops at the first index-list
    that cannot be fetched or collated; and when the pass has finished and
    the batch sampler reports after the pass the number of index-lists it
    has just yielded, the synchronous loop runs through all index-lists
    without an exception and yields exactly what the pass has yielded, in
    the same order. *)
Theorem parallel_yields_in_order (schedule : list actor) (s : system) :
  iter_parallel shuffled self schedule = Some s →
  output s `prefix_of` (iter_sync_loop self batches).1
  ∧ (main s = Finished → total = length batches →
       iter_sync_loop self batches = (output s, None)).
Proof.
  intros Hrun.
  destruct (reachable_sound _ _ _ _ Hrun) as [(_ & Hres) (Hout & _)].
  rewrite !Forall_app, !Forall_forall in Hres. split.
  - apply collated_prefix. intros k b Hk%Hout. by apply Hres in Hk.
  - intros Hfin Htotal.
    pose proof (finished_received _ _ _ _ Hrun Hfin) as Hlen.
    pose proof (received_tickets _ _ _ _ Hrun) as Hsub.
    assert (list_to_set_disj (received (log s)).*1
            =@{gmultiset nat} list_to_set_disj (seq 0 (length batches))) as Heq.
    { destruct (decide (list_to_set_disj (received (log s)).*1
                        =@{gmultiset nat}
                        list_to_set_disj
                          (seq 0 (length (bs_iter shuffled
                                            (_batch_sampler self)).1))))
        as [|Hne]; [done|]. exfalso.
      assert (list_to_set_disj (received (log s)).*1
              ⊂@{gmultiset nat}
              list_to_set_disj
                (seq 0 (length (bs_iter shuffled (_batch_sampler self)).1)))
        as Hlt.
      { split; [done|]. intros Hsup. apply Hne. by apply (anti_symm (⊆)). }
      apply gmultiset_subset_size in Hlt.
      rewrite !size_list_to_set_disj, length_fmap, length_seq in Hlt.
      unfold Result, batches, total in *. lia. }
    assert ((iter_sync_loop self batches).2 = None) as Hnone.
    { apply iter_sync_loop_no_error. intros t samples Ht.
      assert (t ∈ (received (log s)).*1) as Hin.
      { apply (elem_of_list_to_set_disj (A:=nat)). rewrite Heq.
        apply elem_of_list_to_set_disj, elem_of_seq.
        apply lookup_lt_Some in Ht. lia. }
      apply list_elem_of_fmap in Hin as ([t' b] & -> & Hin).
      apply Hres in Hin as (samples' & Ht' & Hb). cbn [fst snd] in *.
      exists b. by pose proof (eq_trans (eq_sym Ht) Ht') as [= ->]. }
    destruct (iter_sync_loop self batches) as [bs err] eqn:Hsync.
    cbn [snd] in Hnone. subst err.
    by rewrite (proj2 (output_of_sync_batches shuffled self bs Hsync
                         schedule s Hrun) Hfin Htotal).
Qed.

End OrderFacts.

Lemma parallel_yields_in_order_witness :
  ∃ s,
    iter_parallel in_order keep_loader keep_schedule = Some s
    ∧ main s = Finished
    ∧ bs_len in_order (bs_iter in_order (_batch_sampler keep_loader)).2
      = length (bs_iter in_order (_batch_sampler keep_loader)).1
    ∧ output s
      = [ BNDArray (mkND [4] int64 shared [0; 1; 2; 3]%Z);
          BNDArray (mkND [4] int64 shared [4; 5; 6; 7]%Z);
          BNDArray (mkND [2] int64 shared [8; 9]%Z) ]
    ∧ output s
      `prefix_of` (iter_sync_loop keep_loader
                     (bs_iter in_order (_batch_sampler keep_loader)).1).1
    ∧ iter_sync_loop keep_loader
        (bs_iter in_order (_batch_sampler keep_loader)).1
      = (output s, None).
Proof.
  destruct (iter_parallel in_order keep_loader keep_schedule) as [s|] eqn:Hrun.
  2:{ vm_compute in Hrun. discriminate Hrun. }
  exists s.
  assert (main s = Finished
          ∧ output s
            = [ BNDArray (mkND [4] int64 shared [0; 1; 2; 3]%Z);
                BNDArray (mkND [4] int64 shared [4; 5; 6; 7]%Z);
                BNDArray (mkND [2] int64 shared [8; 9]%Z) ]) as [Hfin Hout].
  { vm_compute in Hrun. injection Hrun as <-. split; reflexivity. }
  destruct (parallel_yields_in_order in_order keep_loader keep_schedule s Hrun)
    as [Hprefix Hall].
  split; [reflexivity|]. split; [exact Hfin|]. split; [reflexivity|].
  split; [exact Hout|]. split; [exact Hprefix|].
  exact (Hall Hfin eq_refl).
Defined.
